(** * funding-extractor: a shallow embedding of the CSV auto-fillers

    The repository holds four near-duplicate browser scripts that read a
    CSV file, index its records and write them into the rows of a form:

    - [BrowserAutofiller]  browser-autofiller.js (keyed by CHICK and
      Claim Until, records are never removed from their bucket);
    - [Part000]            unnamed/part_000 (same key, records are consumed,
      holiday and staleness annotations);
    - [Part001a]           unnamed/part_001, first script (keyed by CHICK
      alone, weekly-total selection dialog, global state);
    - [Part001b]           unnamed/part_001, second script (same, state
      passed as arguments).

    Strings are Rocq strings and stand for texts of one-byte characters;
    white space beyond the six ASCII characters is outside the model.
    JavaScript objects used as dictionaries are [gmap string _]; a missing
    property ([undefined]) is [None].  Keys that name a member of
    Object.prototype (such as the word constructor) are outside the model.
    Inputs of the form are plain text cells: what the browser does to a
    value it is given (a date input refusing a text, say) is outside the
    model, as are scrolling, colours and the delays between rows. *)

From Stdlib Require Import ZArith Lia Ascii.
From stdpp Require Import gmap strings list fin_maps.

(** ** JavaScript string primitives *)

Module Js.

(** The ASCII white space and line terminators of ECMAScript: TAB, LF,
    VT, FF, CR (codes 9 to 13) and SPACE (32). *)
Definition isWhiteSpace (a : ascii) : bool :=
  let code := N_of_ascii a in
  ((9 <=? code) && (code <=? 13) || (code =? 32))%N.

Fixpoint trimStart (s : string) : string :=
  match s with
  | String a s' => if isWhiteSpace a then trimStart s' else s
  | EmptyString => EmptyString
  end.

Fixpoint trimEnd (s : string) : string :=
  match s with
  | EmptyString => EmptyString
  | String a s' =>
      match trimEnd s' with
      | EmptyString => if isWhiteSpace a then EmptyString else String a EmptyString
      | t => String a t
      end
  end.

(** [String.prototype.trim] *)
Definition trim (s : string) : string := trimEnd (trimStart s).

(** [s.split(sep)] for a one-character separator; never empty. *)
Fixpoint split (sep : ascii) (s : string) : list string :=
  match s with
  | EmptyString => [EmptyString]
  | String a s' =>
      if decide (a = sep) then EmptyString :: split sep s'
      else match split sep s' with
           | h :: t => String a h :: t
           | [] => [String a EmptyString]
           end
  end.

Fixpoint startsWith (p s : string) : bool :=
  match p, s with
  | EmptyString, _ => true
  | String a p', String b s' => bool_decide (a = b) && startsWith p' s'
  | String _ _, EmptyString => false
  end.

(** [s.includes(sub)] *)
Fixpoint includes (sub s : string) : bool :=
  startsWith sub s ||
  match s with
  | EmptyString => false
  | String _ s' => includes sub s'
  end.

(** [parts.join(sep)] *)
Fixpoint join (sep : string) (parts : list string) : string :=
  match parts with
  | [] => ""
  | [p] => p
  | p :: ps => p +:+ sep +:+ join sep ps
  end.

(** Truthiness of a string value. *)
Definition truthy (s : string) : bool := negb (bool_decide (s = "")).

(** [v || ''] where [v] is a string or [undefined]. *)
Definition orEmpty (v : option string) : string := default "" v.

Definition isDigit (a : ascii) : bool :=
  let code := N_of_ascii a in
  ((48 <=? code) && (code <=? 57))%N.

Definition isDot (a : ascii) : bool := bool_decide (a = "."%char).

(** [s.replace(/[^\d.]/g, '')] and [s.replace(/[^0-9.]/g, '')]: every
    character outside the class is deleted. *)
Fixpoint stripNonNumeric (s : string) : string :=
  match s with
  | EmptyString => EmptyString
  | String a s' =>
      if isDigit a || isDot a then String a (stripNonNumeric s')
      else stripNonNumeric s'
  end.

Fixpoint count (p : ascii → bool) (s : string) : nat :=
  match s with
  | EmptyString => 0
  | String a s' => (if p a then 1 else 0) + count p s'
  end.

Fixpoint all (p : ascii → bool) (s : string) : bool :=
  match s with
  | EmptyString => true
  | String a s' => p a && all p s'
  end.

Definition LF : ascii := "010"%char.

End Js.

(** ** The CSV parsers *)

Module Csv.
Import Js.

(** [headers.forEach((header, i) => { row[header] = values[i] || ''; })]
    on a fresh object. *)
Definition assign (values : list string) (row : gmap string string)
    (ih : nat * string) : gmap string string :=
  <[ih.2 := orEmpty (values !! ih.1)]> row.

Definition buildRow (headers values : list string) : gmap string string :=
  foldl (assign values) ∅ (imap pair headers).

Definition lineValues (line : string) : list string :=
  trim <$> split ","%char line.

Definition lineRecord (headers : list string) (line : string)
    : gmap string string :=
  buildRow headers (lineValues line).

Definition headerNames (lines : list string) : list string :=
  trim <$> split ","%char (default "" (lines !! 0)).

(** browser-autofiller.js and part_000: the whole text is trimmed, every
    line after the first is mapped to a record. *)
Definition parseCSV_trimmed (csv : string) : list (gmap string string) :=
  let lines := split LF (trim csv) in
  let headers := headerNames lines in
  lineRecord headers <$> drop 1 lines.

(** part_001 (both scripts): blank lines after the first are filtered
    out before the mapping. *)
Definition parseCSV_filtered (csv : string) : list (gmap string string) :=
  let lines := split LF csv in
  let headers := headerNames lines in
  lineRecord headers <$> filter (λ line, trim line ≠ "") (drop 1 lines).

(** Record [rec] holds, under each header name, the value at the position
    of that name's last occurrence (the empty string when the line has no
    value there), and nothing else. *)
Definition positional (headers values : list string)
    (rec : gmap string string) : Prop :=
  (∀ i h, headers !! i = Some h →
          (∀ j, i < j → headers !! j ≠ Some h) →
          rec !! h = Some (orEmpty (values !! i)))
  ∧ (∀ h, h ∉ headers → rec !! h = None).

Definition nl : string := String LF EmptyString.

End Csv.

(** ** The [Date] built-in

    A [Date] holds a time value: milliseconds since 1970-01-01T00:00Z, or
    NaN.  Local time is UTC plus a fixed offset [tz] (in milliseconds); the
    start and the end of a summer lie in the same daylight-saving period in
    the time zones where these scripts run.  Time values stay far from the
    limits of TimeClip, which is left out. *)

Module JsDate.
Local Open Scope Z_scope.

Inductive Date := Valid (t : Z) | Invalid.

Definition msPerDay : Z := 86400000.

Definition Day (t : Z) : Z := t / msPerDay.

(** 1970-01-01 was a Thursday. *)
Definition WeekDay (t : Z) : Z := (Day t + 4) mod 7.

Definition DayFromYear (y : Z) : Z :=
  365 * (y - 1970) + (y - 1969) / 4 - (y - 1901) / 100 + (y - 1601) / 400.

Definition InLeapYear (y : Z) : bool :=
  (y mod 4 =? 0) && (negb (y mod 100 =? 0) || (y mod 400 =? 0)).

(** YearFromTime: the year [y] with [DayFromYear y <= d < DayFromYear (y+1)].
    The mean year length gives an estimate that is off by at most one. *)
Definition YearFromDay (d : Z) : Z :=
  let y := 1970 + (400 * d) / 146097 in
  if d <? DayFromYear y then y - 1
  else if DayFromYear (y + 1) <=? d then y + 1
  else y.

Definition YearFromTime (t : Z) : Z := YearFromDay (Day t).

(** Days before the first of month [mn] (0 to 11). *)
Definition monthStart (leap : bool) (mn : Z) : Z :=
  let l := if leap then 1 else 0 in
  match mn with
  | 0 => 0 | 1 => 31 | 2 => 59 + l | 3 => 90 + l | 4 => 120 + l
  | 5 => 151 + l | 6 => 181 + l | 7 => 212 + l | 8 => 243 + l
  | 9 => 273 + l | 10 => 304 + l | _ => 334 + l
  end.

Definition DaysInMonth (leap : bool) (mn : Z) : Z :=
  match mn with
  | 1 => if leap then 29 else 28
  | 3 | 5 | 8 | 10 => 30
  | _ => 31
  end.

Definition MakeDay (year month date : Z) : Z :=
  let ym := year + month / 12 in
  let mn := month mod 12 in
  DayFromYear ym + monthStart (InLeapYear ym) mn + date - 1.

Definition digitValue (a : ascii) : option Z :=
  let code := Z.of_N (N_of_ascii a) in
  if (48 <=? code) && (code <=? 57) then Some (code - 48) else None.

Fixpoint digitsFrom (acc : Z) (s : string) : option Z :=
  match s with
  | EmptyString => Some acc
  | String a s' =>
      match digitValue a with
      | Some v => digitsFrom (10 * acc + v) s'
      | None => None
      end
  end.

(** An unsigned decimal field of exactly [n] digits. *)
Definition fixedDigits (n : nat) (s : string) : option Z :=
  if decide (String.length s = n) then digitsFrom 0 s else None.

(** The date-only form YYYY-MM-DD of the ECMAScript date-time string
    format, read as UTC; [None] when the string is not of that form or
    names no calendar day. *)
Definition isoDateOnly (s : string) : option Z :=
  match Js.split "-"%char s with
  | [ys; ms; ds] =>
      match fixedDigits 4 ys, fixedDigits 2 ms, fixedDigits 2 ds with
      | Some y, Some m, Some d =>
          if (1 <=? m) && (m <=? 12) && (1 <=? d)
             && (d <=? DaysInMonth (InLeapYear y) (m - 1))
          then Some (MakeDay y (m - 1) d * msPerDay)
          else None
      | _, _, _ => None
      end
  | _ => None
  end.

Definition geb (a b : Date) : bool :=
  match a, b with
  | Valid x, Valid y => y <=? x
  | _, _ => false
  end.

Definition ltb (a b : Date) : bool :=
  match a, b with
  | Valid x, Valid y => x <? y
  | _, _ => false
  end.

Definition leb (a b : Date) : bool := geb b a.

Section Host.
(** The host: its time zone offset and what its [Date.parse] makes of
    a string outside the standard format (implementation-defined). *)
Variable tz : Z.
Variable implParse : string → Date.

(** [new Date(string)] *)
Definition parse (s : string) : Date :=
  match isoDateOnly s with
  | Some t => Valid t
  | None => implParse s
  end.

(** [date.getFullYear()]; [None] is NaN. *)
Definition getFullYear (d : Date) : option Z :=
  match d with
  | Valid t => Some (YearFromTime (t + tz))
  | Invalid => None
  end.

(** [date.getDay()] *)
Definition getDay (d : Date) : option Z :=
  match d with
  | Valid t => Some (WeekDay (t + tz))
  | Invalid => None
  end.

(** [new Date(year, month, date)]: local midnight; years 0 to 99 mean
    1900 to 1999. *)
Definition fromLocal (year : option Z) (month date : Z) : Date :=
  match year with
  | Some y =>
      let yr := if (0 <=? y) && (y <=? 99) then 1900 + y else y in
      Valid (MakeDay yr month date * msPerDay - tz)
  | None => Invalid
  end.

(** [d.setDate(d.getDate() - 1)]: MakeDay of the same year and month
    with the day of the month lowered by one is the day before, the
    time within the day is kept. *)
Definition setDatePrev (d : Date) : Date :=
  match d with
  | Valid t => Valid (t - msPerDay)
  | Invalid => Invalid
  end.
End Host.

End JsDate.

(** ** The rows of the host form (browser-autofiller.js and part_000)

    A row is seen through the selectors the scripts use.  Each input is a
    plain text cell holding its current value; [None] says that the row has
    no element for the selector.  The selectors match on a part of the name
    ([chick_number], [date_to], [date_from], [weekly_total], [hour_rate])
    and are taken to find five different inputs. *)

Module Form.

Inductive Look := Base | Old | Fresh.

Record Row := {
  chick_number : option string;
  date_to : option string;
  date_from : option string;
  weekly_total : option string;
  hour_rate : option string;
  borderTop : bool;              (* style.borderTop has been set *)
  look : option Look;            (* the last classification style applied *)
  badges : option (list string)  (* children appended to td:last-child,
                                    [None] when the row has no cell *)
}.

(** [setInput(selector, value)]:
    [if (el) { el.value = value || ''; el.dispatchEvent(...) }] *)
Definition setInput (cell value : option string) : option string :=
  match cell with
  | Some _ => Some (Js.orEmpty value)
  | None => None
  end.

Definition withInputs (row : Row) (df wt hr : option string) : Row :=
  {| chick_number := chick_number row; date_to := date_to row;
     date_from := df; weekly_total := wt; hour_rate := hr;
     borderTop := borderTop row; look := look row; badges := badges row |}.

Definition withBorder (row : Row) : Row :=
  {| chick_number := chick_number row; date_to := date_to row;
     date_from := date_from row; weekly_total := weekly_total row;
     hour_rate := hour_rate row;
     borderTop := true; look := look row; badges := badges row |}.

Definition withLook (l : Look) (row : Row) : Row :=
  {| chick_number := chick_number row; date_to := date_to row;
     date_from := date_from row; weekly_total := weekly_total row;
     hour_rate := hour_rate row;
     borderTop := borderTop row; look := Some l; badges := badges row |}.

Definition withBadges (bs : list string) (row : Row) : Row :=
  {| chick_number := chick_number row; date_to := date_to row;
     date_from := date_from row; weekly_total := weekly_total row;
     hour_rate := hour_rate row;
     borderTop := borderTop row; look := look row; badges := Some bs |}.

(** The three writes every [fillFields] starts with. *)
Definition writeInputs (row : Row) (data : gmap string string) : Row :=
  withInputs row
    (setInput (date_from row) (data !! "Funding Start"))
    (setInput (weekly_total row) (data !! "Weekly Total"))
    (setInput (hour_rate row) (Js.stripNonNumeric <$> data !! "Hour rate")).

(** [chick] and [claimUntil] of a row when neither is falsy. *)
Definition keyParts (row : Row) : option (string * string) :=
  match Js.trim <$> chick_number row, Js.trim <$> date_to row with
  | Some chick, Some claimUntil =>
      if Js.truthy chick && Js.truthy claimUntil
      then Some (chick, claimUntil) else None
  | _, _ => None
  end.

Definition rowKey (row : Row) : option string :=
  (λ p, p.1 +:+ "|" +:+ p.2) <$> keyParts row.

(** How a call ended. *)
Inductive Status := Returned | Threw | Hung.

(** What happened at a row: its key was blank, its bucket was empty,
    [fillFields] was called with a record and returned, or was called
    and did not return. *)
Inductive Event :=
| SkippedBlank
| NoCandidate
| Filled (c : gmap string string)
| Stopped (c : gmap string string).

Record State := {
  childrenByChickAndEnd : gmap string (list (gmap string string));
  totalMatches : nat
}.

(** The outcome of a traversal: the state and the rows it leaves, one
    event per row it reached, and how it ended ([Returned]: the final
    status line was written). *)
Record Run := {
  final : State;
  rowsOut : list Row;
  trace : list Event;
  status : Status
}.

Definition finish (st : State) : Run :=
  {| final := st; rowsOut := []; trace := []; status := Returned |}.

Definition andThen (row : Row) (e : Event) (r : Run) : Run :=
  {| final := final r; rowsOut := row :: rowsOut r;
     trace := e :: trace r; status := status r |}.

Definition halt (st : State) (row : Row) (rest : list Row) (e : Event)
    (s : Status) : Run :=
  {| final := st; rowsOut := row :: rest; trace := [e]; status := s |}.

(** The record's key, [None] when a key field is [undefined] (calling
    [trim] on it throws a TypeError). *)
Definition keyOf (row : gmap string string) : option string :=
  match row !! "CHICK", row !! "Claim Until" with
  | Some chick, Some claimUntil =>
      Some (Js.trim chick +:+ "|" +:+ Js.trim claimUntil)
  | _, _ => None
  end.

Definition bucket (idx : gmap string (list (gmap string string)))
    (key : string) : list (gmap string string) :=
  default [] (idx !! key).

(** One step of the [data.forEach] of [processCSV]. *)
Definition addRecord (idx : option (gmap string (list (gmap string string))))
    (row : gmap string string)
    : option (gmap string (list (gmap string string))) :=
  match idx with
  | Some m =>
      match keyOf row with
      | Some key => Some (<[key := bucket m key ++ [row]]> m)
      | None => None
      end
  | None => None
  end.

(** The index after [processCSV] has walked over [data]; [None] when a
    TypeError ended the walk. *)
Definition indexRecords (m : gmap string (list (gmap string string)))
    (data : list (gmap string string))
    : option (gmap string (list (gmap string string))) :=
  foldl addRecord (Some m) data.

(** [candidates.find(c => c['Funding Start']?.trim() === startValue)] *)
Definition findExact (startValue : option string)
    (candidates : list (gmap string string)) : option (gmap string string) :=
  snd <$> list_find
    (λ c, Js.trim <$> (c !! "Funding Start") = startValue) candidates.

(** [candidates.splice(candidates.indexOf(toFill), 1)]; [indexOf] yields
    -1 for an absent element and [splice(-1, 1)] removes the last one.
    Two records of a bucket with the same fields are interchangeable
    for everything the scripts do with them. *)
Definition spliceOut (toFill : gmap string string)
    (candidates : list (gmap string string)) : list (gmap string string) :=
  match list_find (λ c, c = toFill) candidates with
  | Some (p, _) => delete p candidates
  | None => delete (length candidates - 1) candidates
  end.

(** The records written, in order, into the rows whose key is [key]:
    those that [fillFields] received there and returned from. *)
Fixpoint fillsFor (key : string) (rows : list Row) (trace : list Event)
    {struct trace} : list (gmap string string) :=
  match trace, rows with
  | e :: trace', row :: rows' =>
      match e with
      | Filled c =>
          if decide (rowKey row = Some key) then c :: fillsFor key rows' trace'
          else fillsFor key rows' trace'
      | _ => fillsFor key rows' trace'
      end
  | _, _ => []
  end.

(** The number of rows marked matched. *)
Definition isFilled (e : Event) : bool :=
  match e with
  | Filled _ => true
  | _ => false
  end.

Definition matchedRows (trace : list Event) : nat :=
  length (List.filter isFilled trace).

(** The three inputs a fill writes hold the same values in both rows. *)
Definition sameInputs (row row' : Row) : Prop :=
  date_from row' = date_from row
  ∧ weekly_total row' = weekly_total row
  ∧ hour_rate row' = hour_rate row.

(** The two inputs the key is read from hold the same values. *)
Definition sameKeyFields (row row' : Row) : Prop :=
  chick_number row' = chick_number row ∧ date_to row' = date_to row.

(** The three inputs hold what [fillFields] writes from record [c]. *)
Definition writtenFrom (c : gmap string string) (row row' : Row) : Prop :=
  date_from row' = setInput (date_from row) (c !! "Funding Start")
  ∧ weekly_total row' = setInput (weekly_total row) (c !! "Weekly Total")
  ∧ hour_rate row'
    = setInput (hour_rate row) (Js.stripNonNumeric <$> c !! "Hour rate").

(** The record the tie-break picks from a bucket, if the bucket has any:
    the only one, else the first whose trimmed Funding Start equals
    [startValue], else the first. *)
Definition chosen (startValue : option string)
    (candidates : list (gmap string string)) : option (gmap string string) :=
  match candidates with
  | [] => None
  | [c] => Some c
  | c0 :: _ => Some (default c0 (findExact startValue candidates))
  end.

(** The row with the separator drawn when the identifier changes. *)
Definition bordered (previousChick : option string) (chick : string)
    (row : Row) : Row :=
  if decide (Some chick ≠ previousChick) then withBorder row else row.

(** [previousChick] after the rows [rows] have been walked over. *)
Definition lastChick (previousChick : option string) (rows : list Row)
    : option string :=
  foldl (λ prev row,
           match keyParts row with
           | Some (chick, _) => Some chick
           | None => prev
           end) previousChick rows.

(** A traversal that reached its end, followed by the traversal of the
    rows after it. *)
Definition glue (r1 r2 : Run) : Run :=
  {| final := final r2; rowsOut := rowsOut r1 ++ rowsOut r2;
     trace := trace r1 ++ trace r2; status := status r2 |}.

(** A key field is blank: absent, empty, or white space only. *)
Definition blankField (v : option string) : Prop :=
  match v with
  | Some s => Js.trim s = ""
  | None => True
  end.

End Form.

(** ** browser-autofiller.js *)

Module BrowserAutofiller.
Import Js Form.

Definition parseCSV := Csv.parseCSV_trimmed.

(** [fillFields(row, data)]: three writes, then the green background. *)
Definition fillFields (row : Row) (data : gmap string string) : Row :=
  withLook Fresh (writeInputs row data).

(** [state.totalMatches++] *)
Definition matched (st : State) : State :=
  {| childrenByChickAndEnd := childrenByChickAndEnd st;
     totalMatches := S (totalMatches st) |}.

(** [processNextRow(rows, i)] on the rows from index [i] on.  No record
    ever leaves its bucket. *)
Fixpoint processNextRow (st : State) (rows : list Row) : Run :=
  match rows with
  | [] => finish st
  | row :: rest =>
      match keyParts row with
      | None => andThen row SkippedBlank (processNextRow st rest)
      | Some (chick, claimUntil) =>
          let key := chick +:+ "|" +:+ claimUntil in
          let candidates := bucket (childrenByChickAndEnd st) key in
          match candidates with
          | [] => andThen row NoCandidate (processNextRow st rest)
          | [c] =>
              andThen (fillFields row c) (Filled c)
                (processNextRow (matched st) rest)
          | c0 :: _ =>
              let startValue := trim <$> date_from row in
              match findExact startValue candidates with
              | Some exact =>
                  andThen (fillFields row exact) (Filled exact)
                    (processNextRow (matched st) rest)
              | None =>
                  andThen (fillFields row c0) (Filled c0)
                    (processNextRow (matched st) rest)
              end
          end
      end
  end.

(** [processTableRows()]: nothing happens without a table or rows. *)
Definition processTableRows (st : State) (table : option (list Row))
    : option Run :=
  match table with
  | None => None
  | Some [] => None
  | Some rows => Some (processNextRow st rows)
  end.

(** [reader.onload] of [processCSV]: index, then walk the table. *)
Definition processCSV (st : State) (csv : string)
    (table : option (list Row)) : option Run :=
  match indexRecords (childrenByChickAndEnd st) (parseCSV csv) with
  | Some idx =>
      processTableRows
        {| childrenByChickAndEnd := idx; totalMatches := totalMatches st |}
        table
  | None => None
  end.

End BrowserAutofiller.

(** ** unnamed/part_000 *)

Module Part000.
Import Js JsDate Form.
Local Open Scope Z_scope.

Definition parseCSV := Csv.parseCSV_trimmed.

(** The static table, in the order of its source text. *)
Definition schoolHolidays : list (string * list (string * (string * string))) :=
  [ ("2024-2025",
      [ ("October Holidays", ("28/10/2024", "01/11/2024"));
        ("Christmas Holidays", ("23/12/2024", "03/01/2025"));
        ("February Holidays", ("17/02/2025", "21/02/2025"));
        ("Easter Holidays", ("14/04/2025", "25/04/2025")) ]);
    ("2025-2026",
      [ ("October Holidays", ("27/10/2025", "31/10/2025"));
        ("Christmas Holidays", ("22/12/2025", "02/01/2026"));
        ("February Holidays", ("16/02/2026", "20/02/2026"));
        ("Easter Holidays", ("30/03/2026", "10/04/2026")) ]) ].

(** The named ranges of the table in the order the two nested loops visit
    them, with the time values of their start and end dates. *)
Definition termRanges : list (string * (Z * Z)) :=
  [ ("October Holidays", (MakeDay 2024 9 28 * msPerDay, MakeDay 2024 10 1 * msPerDay));
    ("Christmas Holidays", (MakeDay 2024 11 23 * msPerDay, MakeDay 2025 0 3 * msPerDay));
    ("February Holidays", (MakeDay 2025 1 17 * msPerDay, MakeDay 2025 1 21 * msPerDay));
    ("Easter Holidays", (MakeDay 2025 3 14 * msPerDay, MakeDay 2025 3 25 * msPerDay));
    ("October Holidays", (MakeDay 2025 9 27 * msPerDay, MakeDay 2025 9 31 * msPerDay));
    ("Christmas Holidays", (MakeDay 2025 11 22 * msPerDay, MakeDay 2026 0 2 * msPerDay));
    ("February Holidays", (MakeDay 2026 1 16 * msPerDay, MakeDay 2026 1 20 * msPerDay));
    ("Easter Holidays", (MakeDay 2026 2 30 * msPerDay, MakeDay 2026 3 10 * msPerDay)) ].

(** The first range of [ranges] that contains [t], both ends included. *)
Fixpoint firstContaining (t : Z) (ranges : list (string * (Z * Z)))
    : option string :=
  match ranges with
  | [] => None
  | (name, (s, e)) :: rest =>
      if (s <=? t) && (t <=? e) then Some name else firstContaining t rest
  end.

(** A loop either ends with a value or never ends. *)
Inductive Loop (A : Type) := Done (a : A) | Diverges.
Arguments Done {A} a.
Arguments Diverges {A}.

Section Host.
Variable tz : Z.
Variable implParse : string → Date.

(** [parseDate(str)]: the parts that the destructuring leaves
    [undefined] print as that word in the template string. *)
Definition parseDate (str : string) : Date :=
  let parts := split "/"%char str in
  let dd := default "undefined" (parts !! 0%nat) in
  let mm := default "undefined" (parts !! 1%nat) in
  let yyyy := default "undefined" (parts !! 2%nat) in
  parse implParse (yyyy +:+ "-" +:+ mm +:+ "-" +:+ dd).

(** The [while] loop of [getFirstMondayBeforeOrOn], at most [fuel]
    tests of its condition. *)
Fixpoint walkBack (fuel : nat) (result : Date) : Loop Date :=
  match fuel with
  | O => Diverges
  | S n =>
      if decide (getDay tz result = Some 1) then Done result
      else walkBack n (setDatePrev result)
  end.

(** Seven tests decide the loop: more fuel never changes the answer
    (see [walkBack_fuel]). *)
Definition getFirstMondayBeforeOrOn (date : Date) : Loop Date :=
  walkBack 7 date.

Fixpoint scanEntries (date : Date)
    (entries : list (string * (string * string))) : option string :=
  match entries with
  | [] => None
  | (name, (startStr, endStr)) :: rest =>
      if geb date (parseDate startStr) && leb date (parseDate endStr)
      then Some name
      else scanEntries date rest
  end.

Fixpoint scanYears (date : Date)
    (years : list (string * list (string * (string * string))))
    : option string :=
  match years with
  | [] => None
  | (_, entries) :: rest =>
      match scanEntries date entries with
      | Some name => Some name
      | None => scanYears date rest
      end
  end.

Definition getHolidayName (date : Date) : Loop (option string) :=
  match getFirstMondayBeforeOrOn (fromLocal tz (getFullYear tz date) 6 1) with
  | Diverges => Diverges
  | Done summerStart =>
      match getFirstMondayBeforeOrOn (fromLocal tz (getFullYear tz date) 8 1) with
      | Diverges => Diverges
      | Done summerEnd =>
          if geb date summerStart && ltb date summerEnd
          then Done (Some "Summer Holidays")
          else Done (scanYears date schoolHolidays)
      end
  end.

(** The Monday on or before the local day of [t], at the same time of
    day: what the walk of [getFirstMondayBeforeOrOn] arrives at. *)
Definition mondayOnOrBefore (t : Z) : Z :=
  t - ((WeekDay (t + tz) + 6) mod 7) * msPerDay.

(** The day number of the Monday on or before day [d]. *)
Definition mondayDay (d : Z) : Z := d - ((d + 4) mod 7 + 6) mod 7.

(** Local midnight of the first of month [month] (0 to 11) of [year]. *)
Definition firstOfMonth (year month : Z) : Z :=
  MakeDay year month 1 * msPerDay - tz.

(** [data.Note?.includes('Base')] *)
Definition isBasePeriod (data : gmap string string) : bool :=
  match data !! "Note" with
  | Some note => includes "Base" note
  | None => false
  end.

(** [endDate && ((new Date() - endDate) / (1000*60*60*24) > 90)]: the
    quotient of the two millisecond counts exceeds 90 exactly when the
    difference exceeds 90 days' worth of milliseconds (the division is
    exact enough at these magnitudes); NaN compares false. *)
Definition isOldPeriod (now : Z) (endDate : Date) : bool :=
  match endDate with
  | Valid e => 90 * msPerDay <? now - e
  | Invalid => false
  end.

Definition classify (now : Z) (data : gmap string string)
    (endDate : Date) : Look :=
  if isBasePeriod data then Base
  else if isOldPeriod now endDate then Old
  else Fresh.

(** The note badge: the text after the first [;], trimmed, if any. *)
Definition noteBadge (data : gmap string string) : list string :=
  match data !! "Note" with
  | Some n =>
      if truthy n && includes ";" n then
        let note := trim (join ";" (drop 1 (split ";"%char n))) in
        if truthy note then [note] else []
      else []
  | None => []
  end.

Definition holidayBadge (holiday : option string) : list string :=
  match holiday with
  | Some name => if truthy name then [name] else []
  | None => []
  end.

(** [fillFields(row, data)] at time [now]: the row as it is left and
    how the call ended.  [parseDate(undefined)] throws; the holiday
    lookup of an invalid start date never returns. *)
Definition fillFields (now : Z) (row : Row) (data : gmap string string)
    : Row * Status :=
  let row1 := writeInputs row data in
  match data !! "Funding Start", data !! "Claim Until" with
  | Some fundingStart, Some claimUntil =>
      let startDate := parseDate fundingStart in
      let endDate := parseDate claimUntil in
      let row2 := withLook (classify now data endDate) row1 in
      match badges row2 with
      | None => (row2, Returned)
      | Some bs =>
          let bs1 := bs ++ noteBadge data in
          match getHolidayName startDate with
          | Done holiday =>
              (withBadges (bs1 ++ holidayBadge holiday) row2, Returned)
          | Diverges => (withBadges bs1 row2, Hung)
          end
      end
  | _, _ => (row1, Threw)
  end.

(** The time at which row [i] is processed. *)
Variable clock : nat → Z.

Definition consume (st : State) (key : string)
    (remaining : list (gmap string string)) : State :=
  {| childrenByChickAndEnd := <[key := remaining]> (childrenByChickAndEnd st);
     totalMatches := S (totalMatches st) |}.

(** [processNextRow(rows, i, previousChick)] on the rows from index
    [i] on. *)
Fixpoint processNextRow (st : State) (rows : list Row) (i : nat)
    (previousChick : option string) : Run :=
  match rows with
  | [] => finish st
  | row :: rest =>
      match keyParts row with
      | None =>
          andThen row SkippedBlank
            (processNextRow st rest (S i) previousChick)
      | Some (chick, claimUntil) =>
          let row :=
            if decide (Some chick ≠ previousChick) then withBorder row
            else row in
          let key := chick +:+ "|" +:+ claimUntil in
          let candidates := bucket (childrenByChickAndEnd st) key in
          match candidates with
          | [] =>
              andThen row NoCandidate
                (processNextRow st rest (S i) (Some chick))
          | [c] =>
              match fillFields (clock i) row c with
              | (row', Returned) =>
                  andThen row' (Filled c)
                    (processNextRow (consume st key (delete 0%nat candidates))
                       rest (S i) (Some chick))
              | (row', s) => halt st row' rest (Stopped c) s
              end
          | c0 :: _ =>
              let startValue := trim <$> date_from row in
              let toFill := default c0 (findExact startValue candidates) in
              match fillFields (clock i) row toFill with
              | (row', Returned) =>
                  andThen row' (Filled toFill)
                    (processNextRow
                       (consume st key (spliceOut toFill candidates))
                       rest (S i) (Some chick))
              | (row', s) => halt st row' rest (Stopped toFill) s
              end
          end
      end
  end.

Definition processTableRows (st : State) (table : option (list Row))
    : option Run :=
  match table with
  | None => None
  | Some [] => None
  | Some rows => Some (processNextRow st rows 0%nat None)
  end.

Definition processCSV (st : State) (csv : string)
    (table : option (list Row)) : option Run :=
  match indexRecords (childrenByChickAndEnd st) (parseCSV csv) with
  | Some idx =>
      processTableRows
        {| childrenByChickAndEnd := idx; totalMatches := totalMatches st |}
        table
  | None => None
  end.

End Host.

End Part000.

(** ** unnamed/part_001: the rows, the dialog and the two drivers *)

Module Sheet.
Import Js.

Inductive Highlight := success | error | pending.

(** A row of the second form: the text of its seventh cell and the three
    inputs named [ncs_rows[i][date_from]], [ncs_rows[i][weekly_total]]
    and [ncs_rows[i][hour_rate]]; [None] for an element the row lacks. *)
Record Row := {
  chickCell : option string;
  date_from : option string;
  weekly_total : option string;
  hour_rate : option string;
  highlight : option Highlight
}.

Definition withHighlight (h : Highlight) (row : Row) : Row :=
  {| chickCell := chickCell row; date_from := date_from row;
     weekly_total := weekly_total row; hour_rate := hour_rate row;
     highlight := Some h |}.

Definition setValue (cell : option string) (value : string) : option string :=
  match cell with
  | Some _ => Some value
  | None => None
  end.

(** [fillRowData(rowIndex, childData, weeklyTotalValue)] seen from the
    row it looks up. *)
Definition fillRowData (row : Row) (childData : gmap string string)
    (weeklyTotalValue : option string) : Row :=
  {| chickCell := chickCell row;
     date_from := setValue (date_from row) (orEmpty (childData !! "Start date"));
     weekly_total := setValue (weekly_total row) (orEmpty weeklyTotalValue);
     hour_rate :=
       setValue (hour_rate row)
         (stripNonNumeric (orEmpty (childData !! "Hour rate")));
     highlight := Some success |}.

(** What the operator does with the dialog of a row: press the Select
    button of the [k]-th offered value, or Skip This Row. *)
Inductive Choice := Select (k : nat) | SkipRow.

Inductive Event :=
| NoCell
| NoMatch
| FilledDirect (childData : gmap string string)
| Prompted (values : list string) (choice : Choice).

Inductive Status := Completed | Suspended.

(** The outcome of a traversal: the rows as they are left, the count the
    final status line reports, one event per row reached, and whether the
    status line was written at all. *)
Record Run := {
  rowsOut : list Row;
  reported : nat;
  trace : list Event;
  status : Status
}.

Definition andThen (row : Row) (e : Event) (r : Run) : Run :=
  {| rowsOut := row :: rowsOut r; reported := reported r;
     trace := e :: trace r; status := status r |}.

Definition finish (n : nat) : Run :=
  {| rowsOut := []; reported := n; trace := []; status := Completed |}.

(** A dialog whose pressed button does not exist stays open. *)
Definition suspend (row : Row) (rest : list Row) (e : Event) (n : nat) : Run :=
  {| rowsOut := row :: rest; reported := n; trace := [e]; status := Suspended |}.

(** [data.forEach(row => { childrenByChick[row['CHICK']] = row; })] on
    an empty object; an [undefined] key is stored under that word. *)
Definition indexByChick (data : list (gmap string string))
    : gmap string (gmap string string) :=
  foldl (λ m row, <[default "undefined" (row !! "CHICK") := row]> m) ∅ data.

(** [weeklyTotal && weeklyTotal.includes('/')] *)
Definition needsChoice (weeklyTotal : option string) : bool :=
  match weeklyTotal with
  | Some w => truthy w && includes "/" w
  | None => false
  end.

Definition parseCSV := Csv.parseCSV_filtered.

End Sheet.

Module Part001a.
Import Js Sheet.

Section Operator.
(** The operator's answer to the dialog of row [i]. *)
Variable operator : nat → list string → Choice.

(** [processRowsSequentially(rows, currentIndex)] on the rows from
    [currentIndex] on; [totalMatches] is the global counter. *)
Fixpoint processRowsSequentially
    (childrenByChick : gmap string (gmap string string))
    (rows : list Row) (currentIndex totalMatches : nat) : Run :=
  match rows with
  | [] => finish totalMatches
  | row :: rest =>
      match chickCell row with
      | None =>
          andThen row NoCell
            (processRowsSequentially childrenByChick rest
               (S currentIndex) totalMatches)
      | Some text =>
          let chickCode := trim text in
          match childrenByChick !! chickCode with
          | Some childData =>
              let weeklyTotal := childData !! "Weekly Total" in
              if needsChoice weeklyTotal then
                let values := split "/"%char (orEmpty weeklyTotal) in
                let shown := withHighlight pending row in
                match operator currentIndex values with
                | Select k =>
                    match values !! k with
                    | Some selectedValue =>
                        andThen
                          (fillRowData shown childData (Some selectedValue))
                          (Prompted values (Select k))
                          (processRowsSequentially childrenByChick rest
                             (S currentIndex) (S totalMatches))
                    | None =>
                        suspend shown rest (Prompted values (Select k))
                          totalMatches
                    end
                | SkipRow =>
                    andThen shown (Prompted values SkipRow)
                      (processRowsSequentially childrenByChick rest
                         (S currentIndex) totalMatches)
                end
              else
                andThen (fillRowData row childData weeklyTotal)
                  (FilledDirect childData)
                  (processRowsSequentially childrenByChick rest
                     (S currentIndex) (S totalMatches))
          | None =>
              andThen row NoMatch
                (processRowsSequentially childrenByChick rest
                   (S currentIndex) totalMatches)
          end
      end
  end.

(** [processTableRows()]: the counter restarts at zero. *)
Definition processTableRows
    (childrenByChick : gmap string (gmap string string))
    (table : option (list Row)) : option Run :=
  match table with
  | None => None
  | Some [] => None
  | Some rows => Some (processRowsSequentially childrenByChick rows 0 0)
  end.

Definition processCSV (csv : string) (table : option (list Row))
    : option Run :=
  processTableRows (indexByChick (parseCSV csv)) table.
End Operator.

End Part001a.

Module Part001b.
Import Js Sheet.

Section Operator.
Variable operator : nat → list string → Choice.

(** [processRowsSequentially(rows, currentIndex, childrenByChick,
    matchCount)]; the Skip button calls it with an empty object and a
    count of zero. *)
Fixpoint processRowsSequentially (rows : list Row) (currentIndex : nat)
    (childrenByChick : gmap string (gmap string string))
    (matchCount : nat) : Run :=
  match rows with
  | [] => finish matchCount
  | row :: rest =>
      match chickCell row with
      | None =>
          andThen row NoCell
            (processRowsSequentially rest (S currentIndex)
               childrenByChick matchCount)
      | Some text =>
          let chickCode := trim text in
          match childrenByChick !! chickCode with
          | Some childData =>
              let weeklyTotal := childData !! "Weekly Total" in
              if needsChoice weeklyTotal then
                let values := split "/"%char (orEmpty weeklyTotal) in
                let shown := withHighlight pending row in
                match operator currentIndex values with
                | Select k =>
                    match values !! k with
                    | Some selectedValue =>
                        andThen
                          (fillRowData shown childData (Some selectedValue))
                          (Prompted values (Select k))
                          (processRowsSequentially rest (S currentIndex)
                             childrenByChick (S matchCount))
                    | None =>
                        suspend shown rest (Prompted values (Select k))
                          matchCount
                    end
                | SkipRow =>
                    andThen shown (Prompted values SkipRow)
                      (processRowsSequentially rest (S currentIndex) ∅ 0)
                end
              else
                andThen (fillRowData row childData weeklyTotal)
                  (FilledDirect childData)
                  (processRowsSequentially rest (S currentIndex)
                     childrenByChick (S matchCount))
          | None =>
              andThen row NoMatch
                (processRowsSequentially rest (S currentIndex)
                   childrenByChick matchCount)
          end
      end
  end.

Definition processTableRows
    (childrenByChick : gmap string (gmap string string))
    (table : option (list Row)) : option Run :=
  match table with
  | None => None
  | Some [] => None
  | Some rows => Some (processRowsSequentially rows 0 childrenByChick 0)
  end.

Definition processCSV (csv : string) (table : option (list Row))
    : option Run :=
  processTableRows (indexByChick (parseCSV csv)) table.
End Operator.

End Part001b.

(** ** part_001: highlighting

    The class list of a row is an ordered set of tokens. *)

Module Ui.

Definition highlightTokens : list string :=
  ["csv-filler-success"; "csv-filler-error"; "csv-filler-pending"].

(** [classList.remove(...tokens)] *)
Definition classRemove (tokens classes : list string) : list string :=
  filter (λ c, c ∉ tokens) classes.

(** [classList.add(token)] *)
Definition classAdd (token : string) (classes : list string) : list string :=
  if decide (token ∈ classes) then classes else classes ++ [token].

Definition statusName (h : Sheet.Highlight) : string :=
  match h with
  | Sheet.success => "success"
  | Sheet.error => "error"
  | Sheet.pending => "pending"
  end.

(** [highlightRow(rowIndex, status)] on the class list of the row it
    finds; [None] when there is no such row. *)
Definition highlightRow (row : option (list string)) (status : string)
    : option (list string) :=
  match row with
  | Some classes =>
      Some (classAdd ("csv-filler-" +:+ status)
              (classRemove highlightTokens classes))
  | None => None
  end.

(** The highlight a class list shows: the first token of the three it
    holds, if any. *)
Definition shownHighlight (classes : list string) : option Sheet.Highlight :=
  snd <$> list_find
    (λ h, "csv-filler-" +:+ statusName h ∈ classes)
    [Sheet.success; Sheet.error; Sheet.pending].

End Ui.

(** ** Vocabulary of the statements *)

Module Describe.
Import Js JsDate Form.

(** Why a call of part_000's [fillFields] that did not return did not:
    [parseDate(undefined)] threw, or the holiday lookup of an invalid
    start date never ended. *)
Definition stopReason (implParse : string → Date) (s : Status)
    (row : Row) (c : gmap string string) : Prop :=
  match s with
  | Threw => c !! "Funding Start" = None ∨ c !! "Claim Until" = None
  | Hung =>
      is_Some (badges row) ∧ is_Some (c !! "Claim Until")
      ∧ ∃ fundingStart, c !! "Funding Start" = Some fundingStart
                        ∧ Part000.parseDate implParse fundingStart = Invalid
  | Returned => False
  end.

(** A string without a bar, the separator of the two parts of a key. *)
Definition barFree (s : string) : Prop :=
  all (λ a, negb (bool_decide (a = "|"%char))) s = true.

(** The record [c] has the key of the row; where the identifiers hold
    no bar, the two fields agree one by one. *)
Definition sameKey (row : Row) (c : gmap string string) : Prop :=
  ∃ chick claimUntil,
    keyParts row = Some (chick, claimUntil)
    ∧ keyOf c = Some (chick +:+ "|" +:+ claimUntil)
    ∧ ∀ recChick recUntil,
        c !! "CHICK" = Some recChick → c !! "Claim Until" = Some recUntil →
        barFree chick → barFree (trim recChick) →
        trim recChick = chick ∧ trim recUntil = claimUntil.

(** The events of the second form at which a row was filled. *)
Definition sheetFill (e : Sheet.Event) : bool :=
  match e with
  | Sheet.FilledDirect _ => true
  | Sheet.Prompted values (Sheet.Select k) => bool_decide (is_Some (values !! k))
  | _ => false
  end.

Definition skipped (e : Sheet.Event) : Prop :=
  ∃ values, e = Sheet.Prompted values Sheet.SkipRow.

(** Decimal digits, to write a calendar day the way the records do. *)
Definition digitChar (n : Z) : ascii := ascii_of_N (Z.to_N (48 + n mod 10)).

Definition twoDigits (n : Z) : string :=
  String (digitChar (n / 10)) (String (digitChar n) EmptyString).

Definition fourDigits (n : Z) : string :=
  String (digitChar (n / 1000)) (String (digitChar (n / 100)) (twoDigits n)).

(** DD/MM/YYYY *)
Definition dayText (year month day : Z) : string :=
  twoDigits day +:+ "/" +:+ twoDigits month +:+ "/" +:+ fourDigits year.

End Describe.

(** ** Sample data the statements are exercised on *)

Module Samples.
Import JsDate Form.

(** A host whose [Date.parse] rejects every string outside the standard
    format. *)
Definition sampleHost : string → Date := λ _, Invalid.

Definition sampleRow : Row :=
  {| chick_number := Some "A12"; date_to := Some "31/12/2025";
     date_from := Some ""; weekly_total := Some ""; hour_rate := Some "";
     borderTop := false; look := None; badges := Some [] |}.

(** The same row with its start date already filled in. *)
Definition sampleRowOctober : Row :=
  {| chick_number := Some "A12"; date_to := Some "31/12/2025";
     date_from := Some "01/10/2025"; weekly_total := Some ""; hour_rate := Some "";
     borderTop := false; look := None; badges := Some [] |}.

Definition blankRow : Row :=
  {| chick_number := Some "  "; date_to := Some "31/12/2025";
     date_from := Some ""; weekly_total := Some ""; hour_rate := Some "";
     borderTop := false; look := None; badges := Some [] |}.

Definition september : gmap string string :=
  {[ "CHICK" := "A12"; "Claim Until" := "31/12/2025";
     "Funding Start" := "01/09/2025"; "Weekly Total" := "20";
     "Hour rate" := "EUR 5.50" ]}.

Definition october : gmap string string :=
  {[ "CHICK" := "A12"; "Claim Until" := "31/12/2025";
     "Funding Start" := "01/10/2025"; "Weekly Total" := "25";
     "Hour rate" := "EUR 6.00" ]}.

(** A record of the same child and period whose Funding Start cell is
    empty. *)
Definition undated : gmap string string :=
  {[ "CHICK" := "A12"; "Claim Until" := "31/12/2025";
     "Funding Start" := ""; "Weekly Total" := "30";
     "Hour rate" := "EUR 7.00" ]}.

(** The offset of a host five hours west of UTC, in milliseconds. *)
Definition fiveHoursWest : Z := (-18000000)%Z.

Definition sampleClock : nat → Z := λ _, (MakeDay 2025 10 1 * msPerDay)%Z.

Definition emptyState : State :=
  {| childrenByChickAndEnd := ∅; totalMatches := 0 |}.

Definition indexed (idx : gmap string (list (gmap string string))) : State :=
  {| childrenByChickAndEnd := idx; totalMatches := 0 |}.

(** Rows and records of the second form. *)
Definition sheetRow (chick : string) : Sheet.Row :=
  {| Sheet.chickCell := Some chick; Sheet.date_from := Some "";
     Sheet.weekly_total := Some ""; Sheet.hour_rate := Some "";
     Sheet.highlight := None |}.

Definition twoTotals : gmap string string :=
  {[ "CHICK" := "A12"; "Child" := "Ann"; "Start date" := "01/09/2025";
     "Weekly Total" := "20/25"; "Hour rate" := "5.50" ]}.

Definition oneTotal : gmap string string :=
  {[ "CHICK" := "B7"; "Child" := "Ben"; "Start date" := "01/09/2025";
     "Weekly Total" := "10"; "Hour rate" := "6.00" ]}.

(** An operator who skips every dialog, and one who always takes the
    first value. *)
Definition alwaysSkip : nat → list string → Sheet.Choice :=
  λ _ _, Sheet.SkipRow.

Definition alwaysFirst : nat → list string → Sheet.Choice :=
  λ _ _, Sheet.Select 0.

End Samples.


(** * Properties *)

(** A closed equation settled by evaluating both sides. *)
Ltac by_evaluation :=
  lazymatch goal with
  | |- @eq ?A ?x ?y => vm_cast_no_check (@eq_refl A y)
  end.

(** ** Strings *)

Module JsFacts.
Import Js.

Lemma trimEnd_empty_all s : trimEnd s = "" → all isWhiteSpace s = true.
Proof.
  induction s as [|a s IH]; simpl; [done|].
  destruct (trimEnd s) eqn:E.
  - destruct (isWhiteSpace a); [auto|done].
  - done.
Qed.

Lemma trimStart_all s : all isWhiteSpace (trimStart s) = true → all isWhiteSpace s = true.
Proof.
  induction s as [|a s IH]; simpl; [done|].
  destruct (isWhiteSpace a) eqn:E; simpl; [auto|].
  by rewrite E.
Qed.

Lemma trim_empty_all s : trim s = "" → all isWhiteSpace s = true.
Proof. intros H. by apply trimStart_all, trimEnd_empty_all. Qed.

Lemma split_no_sep sep s :
  all (λ a, negb (bool_decide (a = sep))) s = true → split sep s = [s].
Proof.
  induction s as [|a s IH]; simpl; [done|].
  intros [Ha Hs]%andb_true_iff. rewrite (IH Hs).
  apply negb_true_iff, bool_decide_eq_false in Ha.
  by destruct (decide (a = sep)).
Qed.

Lemma all_impl (p q : ascii → bool) s :
  (∀ a, p a = true → q a = true) → all p s = true → all q s = true.
Proof.
  intros Hpq. induction s as [|a s IH]; simpl; [done|].
  intros [Ha Hs]%andb_true_iff. rewrite (Hpq a Ha). auto.
Qed.

Lemma blank_line_values s :
  trim s = "" → trim <$> split ","%char s = [""].
Proof.
  intros H. rewrite split_no_sep; [by simpl; rewrite H|].
  apply (all_impl isWhiteSpace); [|by apply trim_empty_all].
  intros a Ha. apply negb_true_iff, bool_decide_eq_false. intros ->. done.
Qed.

Lemma stripNonNumeric_filter s :
  String.list_ascii_of_string (stripNonNumeric s)
  = List.filter (λ a, isDigit a || isDot a) (String.list_ascii_of_string s).
Proof.
  induction s as [|a s IH]; simpl; [done|].
  destruct (isDigit a || isDot a); simpl; by rewrite IH.
Qed.

Lemma stripNonNumeric_class s :
  all (λ a, isDigit a || isDot a) (stripNonNumeric s) = true.
Proof.
  induction s as [|a s IH]; simpl; [done|].
  destruct (isDigit a || isDot a) eqn:E; simpl; [by rewrite E|done].
Qed.

Lemma stripNonNumeric_count p s :
  (∀ a, p a = true → isDigit a || isDot a = true) →
  count p (stripNonNumeric s) = count p s.
Proof.
  intros Hp. induction s as [|a s IH]; simpl; [done|].
  destruct (isDigit a || isDot a) eqn:E; simpl; rewrite IH; [done|].
  destruct (p a) eqn:Ep; [|done]. apply Hp in Ep. congruence.
Qed.

Lemma stripNonNumeric_dots s : count isDot (stripNonNumeric s) = count isDot s.
Proof.
  apply stripNonNumeric_count. intros a ->. apply orb_true_r.
Qed.

Example trim_sample : trim (String "009" "  A12 " +:+ Csv.nl) = "A12".
Proof. by_evaluation. Qed.

Example trim_inner_space : trim " Claim Until " = "Claim Until".
Proof. by_evaluation. Qed.

Example split_sample : split ","%char "a,,b," = ["a"; ""; "b"; ""].
Proof. by_evaluation. Qed.

Example split_empty : split ","%char "" = [""].
Proof. by_evaluation. Qed.

Example includes_sample :
  includes "Base" "NCS Base rate" = true ∧ includes "Base" "base" = false.
Proof. split; by_evaluation. Qed.

Example strip_sample : stripNonNumeric "EUR 1,234.50 per hour" = "1234.50".
Proof. by_evaluation. Qed.

End JsFacts.

(** ** The parsers *)

Module CsvFacts.
Import Js Csv.

Lemma buildRow_snoc headers h values :
  buildRow (headers ++ [h]) values
  = <[h := orEmpty (values !! length headers)]> (buildRow headers values).
Proof.
  unfold buildRow. rewrite imap_app, foldl_app. simpl.
  unfold assign at 1. simpl. by rewrite Nat.add_0_r.
Qed.

Lemma buildRow_absent headers values h :
  h ∉ headers → buildRow headers values !! h = None.
Proof.
  induction headers as [|x l IH] using rev_ind; intros Hn.
  - done.
  - rewrite buildRow_snoc. rewrite not_elem_of_app in Hn.
    destruct Hn as [Hl Hx]. rewrite lookup_insert_ne; [auto|].
    intros ->. apply Hx. by left.
Qed.

Lemma buildRow_last headers values i h :
  headers !! i = Some h →
  (∀ j, i < j → headers !! j ≠ Some h) →
  buildRow headers values !! h = Some (orEmpty (values !! i)).
Proof.
  revert i. induction headers as [|x l IH] using rev_ind; intros i Hi Hlast.
  - done.
  - rewrite buildRow_snoc.
    destruct (decide (i = length l)) as [->|Hne].
    + rewrite lookup_app_r, Nat.sub_diag in Hi by lia. simpl in Hi.
      injection Hi as ->. by rewrite lookup_insert_eq.
    + assert (i < length l) as Hlt.
      { apply lookup_lt_Some in Hi. rewrite length_app in Hi. simpl in Hi. lia. }
      rewrite lookup_app_l in Hi by done.
      rewrite lookup_insert_ne.
      * apply (IH i); [done|]. intros j Hj Hjh.
        apply (Hlast j Hj). rewrite lookup_app_l; [done|].
        by apply lookup_lt_Some in Hjh.
      * intros ->. apply (Hlast (length l)); [lia|].
        by rewrite lookup_app_r, Nat.sub_diag by lia.
Qed.

Lemma buildRow_positional headers values :
  positional headers values (buildRow headers values).
Proof.
  split.
  - intros i h. apply buildRow_last.
  - intros h. apply buildRow_absent.
Qed.

Lemma buildRow_present headers values h :
  h ∈ headers → ∃ i, headers !! i = Some h
                     ∧ buildRow headers values !! h = Some (orEmpty (values !! i)).
Proof.
  induction headers as [|x l IH] using rev_ind; intros Hin.
  - by apply elem_of_nil in Hin.
  - rewrite buildRow_snoc. destruct (decide (x = h)) as [->|Hne].
    + exists (length l). rewrite lookup_insert_eq.
      by rewrite lookup_app_r, Nat.sub_diag by lia.
    + apply elem_of_app in Hin as [Hin|Hin%list_elem_of_singleton]; [|congruence].
      destruct (IH Hin) as (i & Hi & Hv). exists i.
      rewrite lookup_insert_ne by done. split; [|done].
      rewrite lookup_app_l; [done|]. by apply lookup_lt_Some in Hi.
Qed.

(** A blank line gives every header the empty string. *)
Lemma blank_line_record headers line h :
  trim line = "" → h ∈ headers → lineRecord headers line !! h = Some "".
Proof.
  intros Hb Hin. unfold lineRecord, lineValues.
  rewrite (JsFacts.blank_line_values _ Hb).
  destruct (buildRow_present headers [""] h Hin) as (i & _ & ->).
  f_equal. by destruct i.
Qed.

(** C9, amended.  The first line gives the field names, each trimmed, and
    every record assigns the comma-separated, trimmed values of its line to
    those names by position, a missing trailing value being the empty
    string.  In part_001 there is one record per non-blank line after the
    first, in their order, and a blank line yields none.  In part_000 and
    browser-autofiller.js the text is trimmed as a whole and there is one
    record per line after the first, blank or not: a blank line between two
    others yields a record whose fields are all empty. *)
Theorem parseCSV_records (csv : string) :
  (let lines := split LF csv in
   let kept := filter (λ line, trim line ≠ "") (drop 1 lines) in
   length (parseCSV_filtered csv) = length kept
   ∧ ∀ k line, kept !! k = Some line →
       trim line ≠ ""
       ∧ ∃ rec, parseCSV_filtered csv !! k = Some rec
                ∧ positional (trim <$> split ","%char (default "" (lines !! 0)))
                    (trim <$> split ","%char line) rec)
  ∧ (let lines := split LF (trim csv) in
     let rest := drop 1 lines in
     length (parseCSV_trimmed csv) = length rest
     ∧ ∀ k line, rest !! k = Some line →
         ∃ rec, parseCSV_trimmed csv !! k = Some rec
                ∧ positional (trim <$> split ","%char (default "" (lines !! 0)))
                    (trim <$> split ","%char line) rec
                ∧ (trim line = "" →
                   ∀ h, h ∈ trim <$> split ","%char (default "" (lines !! 0)) →
                        rec !! h = Some "")).
Proof.
  split.
  - simpl. unfold parseCSV_filtered. split; [by rewrite length_fmap|].
    intros k line Hk. split.
    + apply list_elem_of_lookup_2, list_elem_of_filter in Hk. tauto.
    + eexists. split; [by rewrite list_lookup_fmap, Hk|].
      apply buildRow_positional.
  - simpl. unfold parseCSV_trimmed. split; [by rewrite length_fmap|].
    intros k line Hk. eexists. split; [by rewrite list_lookup_fmap, Hk|].
    split; [apply buildRow_positional|].
    intros Hb h Hh. by apply blank_line_record.
Qed.

Lemma parseCSV_records_witness :
  let csv := "CHICK, Claim Until ,Note" +:+ nl +:+ "A12,31/12/2025" +:+ nl
             +:+ " " +:+ nl +:+ "B7 , 30/06/2025, Base;x" in
  parseCSV_filtered csv
  = [ {[ "CHICK" := "A12"; "Claim Until" := "31/12/2025"; "Note" := "" ]};
      {[ "CHICK" := "B7"; "Claim Until" := "30/06/2025"; "Note" := "Base;x" ]} ]
  ∧ length (parseCSV_trimmed csv) = 3.
Proof.
  intros csv.
  pose proof (parseCSV_records csv) as [[Hlen _] [Hlen' _]].
  split; [|rewrite Hlen']; by_evaluation.
Defined.

(** In part_000 a blank line after the header does yield a record. *)
Lemma parseCSV_trimmed_blank_line :
  let csv := "A,B" +:+ nl +:+ "1,2" +:+ nl +:+ nl +:+ "3,4" in
  filter (λ line, trim line ≠ "") (drop 1 (split LF csv)) = ["1,2"; "3,4"]
  ∧ parseCSV_trimmed csv
    = [ {[ "A" := "1"; "B" := "2" ]}; {[ "A" := ""; "B" := "" ]};
        {[ "A" := "3"; "B" := "4" ]} ].
Proof. split; by_evaluation. Qed.

End CsvFacts.

(** ** The index of source records *)

Module IndexFacts.
Import Js Form.

Lemma bucket_insert_eq (m : gmap string (list (gmap string string))) k l :
  bucket (<[k := l]> m) k = l.
Proof. unfold bucket. by rewrite lookup_insert_eq. Qed.

Lemma bucket_insert_ne (m : gmap string (list (gmap string string))) k k' l :
  k ≠ k' → bucket (<[k := l]> m) k' = bucket m k'.
Proof. intros. unfold bucket. by rewrite lookup_insert_ne. Qed.

Lemma keyOf_fields r chick claim :
  r !! "CHICK" = Some chick → r !! "Claim Until" = Some claim →
  keyOf r = Some (trim chick +:+ "|" +:+ trim claim).
Proof. intros H1 H2. unfold keyOf. by rewrite H1, H2. Qed.

Lemma keyOf_is_Some r :
  is_Some (keyOf r) ↔ is_Some (r !! "CHICK") ∧ is_Some (r !! "Claim Until").
Proof.
  unfold keyOf. destruct (r !! "CHICK"), (r !! "Claim Until"); split;
    first [ intros [[? ?] [? ?]]; by eauto | intros [? ?]; by eauto ].
Qed.

Lemma indexRecords_snoc m data r :
  indexRecords m (data ++ [r]) = addRecord (indexRecords m data) r.
Proof. unfold indexRecords. by rewrite foldl_app. Qed.

(** A record without a key field ends the walk with a TypeError. *)
Lemma indexRecords_throws m data :
  indexRecords m data = None ↔ Exists (λ r, keyOf r = None) data.
Proof.
  induction data as [|r data IH] using rev_ind.
  - split; [done|]. by intros ?%Exists_nil.
  - rewrite indexRecords_snoc, Exists_app, Exists_cons, Exists_nil.
    destruct (indexRecords m data) as [idx|] eqn:E; simpl.
    + destruct (keyOf r) eqn:Ek.
      * split; [done|]. intros [H|[H|[]]]; [|done].
        apply IH in H. done.
      * split; [|done]. intros _. right. by left.
    + split; [|done]. intros _. left. by apply IH.
Qed.

Lemma indexRecords_buckets m data :
  Forall (λ r, is_Some (keyOf r)) data →
  ∃ idx, indexRecords m data = Some idx
    ∧ (∀ key, bucket idx key
              = bucket m key ++ filter (λ r, keyOf r = Some key) data)
    ∧ (∀ key, idx !! key = None
              ↔ m !! key = None ∧ filter (λ r, keyOf r = Some key) data = []).
Proof.
  induction data as [|r data IH] using rev_ind; intros Hall.
  - exists m. split; [done|]. split.
    + intros key. by rewrite filter_nil, app_nil_r.
    + intros key. rewrite filter_nil. tauto.
  - apply Forall_app in Hall as [Hall Hr].
    apply Forall_cons in Hr as [[k Hk] _].
    destruct (IH Hall) as (idx & Hidx & Hb & Hn).
    rewrite indexRecords_snoc, Hidx. simpl. rewrite Hk.
    eexists. split; [done|]. split.
    + intros key. rewrite filter_app, filter_cons, filter_nil.
      destruct (decide (k = key)) as [->|Hne].
      * rewrite bucket_insert_eq, Hb, decide_True by done.
        by rewrite <- app_assoc.
      * rewrite bucket_insert_ne, Hb, decide_False by congruence.
        by rewrite app_nil_r.
    + intros key. rewrite filter_app, filter_cons, filter_nil.
      destruct (decide (k = key)) as [->|Hne].
      * rewrite lookup_insert_eq, decide_True by done.
        split; [done|]. intros [_ H]. by apply app_eq_nil in H as [_ ?].
      * rewrite lookup_insert_ne, decide_False, app_nil_r by congruence.
        apply Hn.
Qed.

(** Records parsed under a header line that names both key fields have
    both. *)
Lemma parsed_records_keyed csv :
  let headers := Csv.headerNames (split LF (trim csv)) in
  "CHICK" ∈ headers → "Claim Until" ∈ headers →
  Forall (λ r, is_Some (keyOf r)) (Csv.parseCSV_trimmed csv).
Proof.
  intros headers H1 H2. unfold Csv.parseCSV_trimmed.
  apply Forall_fmap, Forall_forall. intros line _. simpl.
  apply keyOf_is_Some. unfold Csv.lineRecord.
  destruct (CsvFacts.buildRow_present _ (Csv.lineValues line) _ H1) as (i & _ & Hi).
  destruct (CsvFacts.buildRow_present _ (Csv.lineValues line) _ H2) as (j & _ & Hj).
  fold headers. rewrite Hi, Hj. eauto.
Qed.

(** C7.  For records that have both key fields, [processCSV] stores each
    record under trim(CHICK) + "|" + trim(Claim Until); the bucket of a key
    is the list of the records with that key in input order, a bucket
    exists exactly for the keys that occur, and no record is left out. *)
Theorem index_keeps_input_order (data : list (gmap string string)) :
  Forall (λ r, is_Some (r !! "CHICK") ∧ is_Some (r !! "Claim Until")) data →
  ∃ idx, indexRecords ∅ data = Some idx
    ∧ (∀ key, idx !! key = None ∧ filter (λ r, keyOf r = Some key) data = []
              ∨ idx !! key = Some (filter (λ r, keyOf r = Some key) data)
                ∧ filter (λ r, keyOf r = Some key) data ≠ [])
    ∧ (∀ r, r ∈ data →
         ∃ chick claim,
           r !! "CHICK" = Some chick ∧ r !! "Claim Until" = Some claim
           ∧ keyOf r = Some (trim chick +:+ "|" +:+ trim claim)
           ∧ r ∈ bucket idx (trim chick +:+ "|" +:+ trim claim)).
Proof.
  intros Hall.
  assert (Forall (λ r, is_Some (keyOf r)) data) as Hk.
  { eapply Forall_impl; [done|]. intros r. apply keyOf_is_Some. }
  destruct (indexRecords_buckets ∅ data Hk) as (idx & Hidx & Hb & Hn).
  exists idx. split; [done|]. split.
  - intros key. pose proof (Hb key) as Hbk. pose proof (Hn key) as Hnk.
    unfold bucket in Hbk. rewrite lookup_empty in Hbk, Hnk. simpl in Hbk.
    destruct (idx !! key) as [l|] eqn:E; simpl in Hbk.
    + right. split; [by rewrite Hbk|]. intros Hnil.
      assert (Some l = None) by (apply Hnk; done). done.
    + left. split; [done|]. by apply Hnk.
  - intros r Hr. rewrite Forall_forall in Hall.
    destruct (Hall r Hr) as [[chick Hc] [claim Hu]].
    exists chick, claim. rewrite (keyOf_fields r chick claim Hc Hu).
    repeat split; try done.
    rewrite Hb. unfold bucket at 1. rewrite lookup_empty. simpl.
    apply list_elem_of_filter. split; [|done].
    by apply keyOf_fields.
Qed.

Lemma index_keeps_input_order_witness :
  let a1 : gmap string string :=
    {[ "CHICK" := " A12"; "Claim Until" := "31/12/2025"; "Funding Start" := "01/09/2025" ]} in
  let b : gmap string string :=
    {[ "CHICK" := "B7"; "Claim Until" := "30/06/2025"; "Funding Start" := "01/01/2025" ]} in
  let a2 : gmap string string :=
    {[ "CHICK" := "A12"; "Claim Until" := "31/12/2025 "; "Funding Start" := "01/10/2025" ]} in
  ∃ idx, indexRecords ∅ [a1; b; a2] = Some idx
    ∧ idx !! "A12|31/12/2025" = Some [a1; a2]
    ∧ idx !! "B7|30/06/2025" = Some [b]
    ∧ idx !! "C1|30/06/2025" = None.
Proof.
  intros a1 b a2.
  destruct (index_keeps_input_order [a1; b; a2]) as (idx & Hidx & Hkeys & _).
  { repeat (constructor; [split; eexists; vm_compute; reflexivity|]).
    constructor. }
  exists idx. split; [exact Hidx|].
  assert (Some idx = Some (<["A12|31/12/2025" := [a1; a2]]> (<["B7|30/06/2025" := [b]]> ∅)))
    as [= ->].
  { rewrite <- Hidx. by_evaluation. }
  repeat split; by_evaluation.
Defined.

End IndexFacts.

(** ** Rows and the tie-break *)

Module FormFacts.
Import Js Form.

Lemma keyParts_None row :
  keyParts row = None ↔ blankField (chick_number row) ∨ blankField (date_to row).
Proof.
  unfold keyParts, blankField, truthy.
  destruct (chick_number row) as [c|], (date_to row) as [d|]; simpl;
    try (split; [tauto|done]).
  destruct (decide (trim c = "")) as [Hc|Hc], (decide (trim d = "")) as [Hd|Hd].
  - rewrite Hc, Hd. simpl. tauto.
  - rewrite Hc. simpl. tauto.
  - rewrite Hd, (bool_decide_eq_false_2 _ Hc). simpl. tauto.
  - rewrite (bool_decide_eq_false_2 _ Hc), (bool_decide_eq_false_2 _ Hd). simpl.
    split; [done|]. tauto.
Qed.

Lemma keyParts_Some row chick claimUntil :
  keyParts row = Some (chick, claimUntil) →
  trim <$> chick_number row = Some chick
  ∧ trim <$> date_to row = Some claimUntil
  ∧ chick ≠ "" ∧ claimUntil ≠ ""
  ∧ rowKey row = Some (chick +:+ "|" +:+ claimUntil).
Proof.
  unfold rowKey, keyParts, truthy.
  destruct (chick_number row) as [c|], (date_to row) as [d|]; simpl; try done.
  destruct (decide (trim c = "")) as [Hc|Hc], (decide (trim d = "")) as [Hd|Hd].
  - rewrite Hc. done.
  - rewrite Hc. done.
  - rewrite Hd, (bool_decide_eq_false_2 _ Hc). done.
  - rewrite (bool_decide_eq_false_2 _ Hc), (bool_decide_eq_false_2 _ Hd). simpl.
    intros [= <- <-]. done.
Qed.

Lemma keyParts_same row row' :
  sameKeyFields row row' → keyParts row' = keyParts row.
Proof. intros [H1 H2]. unfold keyParts. by rewrite H1, H2. Qed.

Lemma rowKey_same row row' :
  sameKeyFields row row' → rowKey row' = rowKey row.
Proof. intros H. unfold rowKey. by rewrite (keyParts_same _ _ H). Qed.

Lemma bordered_keyFields prev chick row : sameKeyFields row (bordered prev chick row).
Proof. unfold bordered. by destruct (decide _). Qed.

Lemma bordered_inputs prev chick row : sameInputs row (bordered prev chick row).
Proof. unfold bordered. by destruct (decide _). Qed.

Lemma bordered_date_from prev chick row :
  date_from (bordered prev chick row) = date_from row.
Proof. unfold bordered. by destruct (decide _). Qed.

Lemma writeInputs_written row c : writtenFrom c row (writeInputs row c).
Proof. done. Qed.

Lemma writeInputs_keyFields row c : sameKeyFields row (writeInputs row c).
Proof. done. Qed.

(** *** The tie-break *)

Lemma chosen_None sv cands : chosen sv cands = None ↔ cands = [].
Proof. destruct cands as [|? [|? ?]]; simpl; split; done. Qed.

Lemma spliceOut_at c cands p :
  cands !! p = Some c →
  (∀ q c', q < p → cands !! q = Some c' → c' ≠ c) →
  spliceOut c cands = delete p cands.
Proof.
  intros Hp Hfirst. unfold spliceOut.
  destruct (list_find (λ c', c' = c) cands) as [[q x]|] eqn:E.
  - apply list_find_Some in E as (Hq & -> & Hmin).
    destruct (Nat.lt_trichotomy q p) as [Hlt|[->|Hgt]]; [|done|].
    + by destruct (Hfirst q c Hlt Hq).
    + by destruct (Hmin p c Hp Hgt).
  - apply list_find_None in E. rewrite Forall_forall in E.
    destruct (E c); [|done]. by eapply list_elem_of_lookup_2.
Qed.

(** What the tie-break picks: position [p] holds the picked record; it is
    the first exact match on the start date, or the head when nothing
    matches (or when it is alone). *)
Lemma chosen_Some sv cands c :
  chosen sv cands = Some c →
  ∃ p, cands !! p = Some c
    ∧ spliceOut c cands = delete p cands
    ∧ (length cands = 1 ∧ p = 0
       ∨ 1 < length cands
         ∧ trim <$> c !! "Funding Start" = sv
         ∧ (∀ q c', q < p → cands !! q = Some c' →
                    trim <$> c' !! "Funding Start" ≠ sv)
       ∨ 1 < length cands ∧ p = 0
         ∧ Forall (λ c', trim <$> c' !! "Funding Start" ≠ sv) cands).
Proof.
  destruct cands as [|c0 [|c1 rest]]; simpl; [done| |].
  - intros [= ->]. exists 0. split; [done|]. split; [|left; done].
    apply spliceOut_at; [done|]. intros q c' Hq. lia.
  - unfold findExact.
    destruct (list_find _ (c0 :: c1 :: rest)) as [[p x]|] eqn:E; simpl.
    + intros [= ->]. apply list_find_Some in E as (Hp & Hm & Hmin).
      exists p. split; [done|]. split.
      * apply spliceOut_at; [done|]. intros q c' Hq Hc' ->.
        by apply (Hmin q c Hc' Hq).
      * right. left. split; [lia|]. split; [done|].
        intros q c' Hq Hc'. by apply (Hmin q c').
    + intros [= ->]. apply list_find_None in E.
      exists 0. split; [done|]. split.
      * apply spliceOut_at; [done|]. intros q c' Hq. lia.
      * right. right. split; [lia|]. done.
Qed.

Lemma chosen_Permutation sv cands c :
  chosen sv cands = Some c → cands ≡ₚ c :: spliceOut c cands.
Proof.
  intros H. destruct (chosen_Some _ _ _ H) as (p & Hp & -> & _).
  by apply delete_Permutation.
Qed.

(** Whatever is spliced out, what stays keeps its order. *)
Lemma spliceOut_sublist c cands : spliceOut c cands `sublist_of` cands.
Proof.
  unfold spliceOut. destruct (list_find _ cands) as [[p x]|]; apply sublist_delete.
Qed.

Lemma spliceOut_single c : spliceOut c [c] = [].
Proof. unfold spliceOut. simpl. by rewrite decide_True. Qed.

End FormFacts.

(** ** part_000: the traversal, one row at a time *)

Module Part000Facts.
Import Js JsDate Form Part000 FormFacts.

Section Host.
Variable tz : Z.
Variable implParse : string → Date.
Variable clock : nat → Z.

Abbreviation run := (processNextRow tz implParse clock).
Abbreviation fill := (fillFields tz implParse).

Lemma fill_keyFields now row c : sameKeyFields row (fill now row c).1.
Proof.
  unfold fillFields.
  destruct (c !! "Funding Start"), (c !! "Claim Until"); try done.
  simpl. destruct (badges row); [|done].
  by destruct (getHolidayName _ _ _).
Qed.

Lemma fill_written now row c : writtenFrom c row (fill now row c).1.
Proof.
  unfold fillFields.
  destruct (c !! "Funding Start"), (c !! "Claim Until"); try done.
  simpl. destruct (badges row); [|done].
  by destruct (getHolidayName _ _ _).
Qed.

Lemma step_blank st row rest i prev :
  keyParts row = None →
  run st (row :: rest) i prev
  = andThen row SkippedBlank (run st rest (S i) prev).
Proof. intros H. simpl. by rewrite H. Qed.

Lemma step_empty st row rest i prev chick claimUntil :
  keyParts row = Some (chick, claimUntil) →
  bucket (childrenByChickAndEnd st) (chick +:+ "|" +:+ claimUntil) = [] →
  run st (row :: rest) i prev
  = andThen (bordered prev chick row) NoCandidate
      (run st rest (S i) (Some chick)).
Proof. intros H Hb. simpl. by rewrite H, Hb. Qed.

Lemma step_fill st row rest i prev chick claimUntil c :
  keyParts row = Some (chick, claimUntil) →
  chosen (trim <$> date_from row)
    (bucket (childrenByChickAndEnd st) (chick +:+ "|" +:+ claimUntil)) = Some c →
  run st (row :: rest) i prev
  = match fill (clock i) (bordered prev chick row) c with
    | (row', Returned) =>
        andThen row' (Filled c)
          (run (consume st (chick +:+ "|" +:+ claimUntil)
                  (spliceOut c
                     (bucket (childrenByChickAndEnd st)
                        (chick +:+ "|" +:+ claimUntil))))
             rest (S i) (Some chick))
    | (row', s) => halt st row' rest (Stopped c) s
    end.
Proof.
  intros H Hc. simpl. rewrite H. fold (bordered prev chick row).
  rewrite bordered_date_from.
  destruct (bucket _ _) as [|c0 [|c1 more]] eqn:Hb; simpl in Hc.
  - done.
  - injection Hc as ->. by rewrite FormFacts.spliceOut_single.
  - injection Hc as <-. done.
Qed.

(** Case analysis on the next row of a traversal. *)
Ltac next_row st row rest i prev :=
  let chick := fresh "chick" in
  let cu := fresh "claimUntil" in
  let Hk := fresh "Hk" in
  let c := fresh "c" in
  let Hc := fresh "Hc" in
  let row' := fresh "row'" in
  let Hf := fresh "Hf" in
  destruct (keyParts row) as [[chick cu]|] eqn:Hk;
  [ destruct (chosen (trim <$> date_from row)
       (bucket (childrenByChickAndEnd st) (chick +:+ "|" +:+ cu)))
      as [c|] eqn:Hc;
    [ rewrite (step_fill st row rest i prev chick cu c Hk Hc);
      destruct (fill (clock i) (bordered prev chick row) c) as [row' []] eqn:Hf
    | apply FormFacts.chosen_None in Hc;
      rewrite (step_empty st row rest i prev chick cu Hk Hc) ]
  | rewrite (step_blank st row rest i prev Hk) ].

(** The traversal keeps the number of rows and never writes a key field. *)
Lemma run_keyFields rows : ∀ st i prev,
  Forall2 sameKeyFields rows (rowsOut (run st rows i prev)).
Proof.
  induction rows as [|row rest IH]; intros st i prev; [constructor|].
  assert (Forall2 sameKeyFields rest rest) as Hrefl.
  { clear. induction rest; constructor; done. }
  next_row st row rest i prev; simpl.
  - constructor; [|apply IH].
    pose proof (fill_keyFields (clock i) (bordered prev chick row) c) as [H1 H2].
    rewrite Hf in H1, H2. simpl in *.
    destruct (bordered_keyFields prev chick row). split; congruence.
  - constructor; [|done].
    pose proof (fill_keyFields (clock i) (bordered prev chick row) c) as [H1 H2].
    rewrite Hf in H1, H2. simpl in *.
    destruct (bordered_keyFields prev chick row). split; congruence.
  - constructor; [|done].
    pose proof (fill_keyFields (clock i) (bordered prev chick row) c) as [H1 H2].
    rewrite Hf in H1, H2. simpl in *.
    destruct (bordered_keyFields prev chick row). split; congruence.
  - constructor; [apply bordered_keyFields|apply IH].
  - constructor; [done|apply IH].
Qed.

(** The counter grows by one per row marked matched. *)
Lemma run_matches rows : ∀ st i prev,
  totalMatches (final (run st rows i prev))
  = totalMatches st + matchedRows (trace (run st rows i prev))
  ∧ matchedRows (trace (run st rows i prev)) ≤ length rows.
Proof.
  unfold matchedRows.
  induction rows as [|row rest IH]; intros st i prev; [simpl; lia|].
  next_row st row rest i prev; simpl.
  - destruct (IH (consume st (chick +:+ "|" +:+ claimUntil)
       (spliceOut c (bucket (childrenByChickAndEnd st)
          (chick +:+ "|" +:+ claimUntil)))) (S i) (Some chick)) as [-> ?].
    simpl. lia.
  - lia.
  - lia.
  - destruct (IH st (S i) (Some chick)) as [-> ?]. lia.
  - destruct (IH st (S i) prev) as [-> ?]. lia.
Qed.

Lemma bucket_consume_eq st key l :
  bucket (childrenByChickAndEnd (consume st key l)) key = l.
Proof. apply IndexFacts.bucket_insert_eq. Qed.

Lemma bucket_consume_ne st key key' l :
  key ≠ key' →
  bucket (childrenByChickAndEnd (consume st key l)) key'
  = bucket (childrenByChickAndEnd st) key'.
Proof. apply IndexFacts.bucket_insert_ne. Qed.

(** The bucket of a key splits into the records written into the rows of
    that key and the records still in the bucket: nothing is written twice,
    nothing appears from nowhere. *)
Lemma run_buckets key rows : ∀ st i prev,
  bucket (childrenByChickAndEnd st) key
  ≡ₚ fillsFor key rows (trace (run st rows i prev))
     ++ bucket (childrenByChickAndEnd (final (run st rows i prev))) key.
Proof.
  induction rows as [|row rest IH]; intros st i prev; [done|].
  next_row st row rest i prev; simpl.
  all: try (apply IH).
  all: try reflexivity.
  - apply FormFacts.keyParts_Some in Hk as (_ & _ & _ & _ & Hrk).
    rewrite Hrk. destruct (decide (chick +:+ "|" +:+ claimUntil = key)) as [<-|Hne].
    + rewrite decide_True by done. simpl.
      rewrite (FormFacts.chosen_Permutation _ _ _ Hc) at 1.
      constructor. rewrite <- IH. by rewrite bucket_consume_eq.
    + rewrite decide_False by congruence.
      rewrite <- IH. by rewrite bucket_consume_ne.
Qed.

(** A bucket only ever loses records: what is left of it is in the order
    it had. *)
Lemma run_sublist key rows : ∀ st i prev,
  bucket (childrenByChickAndEnd (final (run st rows i prev))) key
  `sublist_of` bucket (childrenByChickAndEnd st) key.
Proof.
  induction rows as [|row rest IH]; intros st i prev; [done|].
  next_row st row rest i prev; simpl; try done.
  etrans; [apply IH|].
  destruct (decide (chick +:+ "|" +:+ claimUntil = key)) as [<-|Hne].
  - rewrite bucket_consume_eq. apply spliceOut_sublist.
  - by rewrite bucket_consume_ne.
Qed.

(** A written record comes from the bucket of its row's key. *)
Lemma run_filled_from rows : ∀ st i prev j c,
  trace (run st rows i prev) !! j = Some (Filled c) →
  ∃ row key, rows !! j = Some row ∧ rowKey row = Some key.
Proof.
  induction rows as [|row rest IH]; intros st i prev j c; [done|].
  next_row st row rest i prev; simpl; destruct j as [|j]; simpl; try done;
    try (intros H; destruct (IH _ _ _ _ _ H) as (r & k & ? & ?); eauto; fail).
  - intros _. apply FormFacts.keyParts_Some in Hk as (_ & _ & _ & _ & Hrk). eauto.
Qed.

(** Once the bucket of a key is empty it stays empty, and every later row
    with that key finds no candidate and keeps its inputs. *)
Lemma run_exhausted key rows : ∀ st i prev,
  bucket (childrenByChickAndEnd st) key = [] →
  bucket (childrenByChickAndEnd (final (run st rows i prev))) key = []
  ∧ ∀ j row, rows !! j = Some row → rowKey row = Some key →
      (trace (run st rows i prev) !! j = Some NoCandidate
       ∨ trace (run st rows i prev) !! j = None)
      ∧ ∃ row', rowsOut (run st rows i prev) !! j = Some row'
                ∧ sameInputs row row' ∧ look row' = look row
                ∧ badges row' = badges row.
Proof.
  induction rows as [|row rest IH]; intros st i prev Hb; [done|].
  assert (∀ j r, rest !! j = Some r →
            ∃ row', rest !! j = Some row' ∧ sameInputs r row'
                    ∧ look row' = look r ∧ badges row' = badges r) as Hsame.
  { intros j r Hr. exists r. done. }
  next_row st row rest i prev; simpl.
  - (* filled: the key of this row is another key *)
    pose proof Hk as (_ & _ & _ & _ & Hrk)%FormFacts.keyParts_Some.
    assert (chick +:+ "|" +:+ claimUntil ≠ key) as Hne.
    { intros <-. rewrite Hb in Hc. done. }
    destruct (IH (consume st (chick +:+ "|" +:+ claimUntil)
       (spliceOut c (bucket (childrenByChickAndEnd st)
          (chick +:+ "|" +:+ claimUntil)))) (S i) (Some chick)) as [Hfin Hrows].
    { by rewrite bucket_consume_ne. }
    split; [done|]. intros [|j] r Hr Hrkey; simpl in *.
    + injection Hr as <-. congruence.
    + by apply Hrows.
  - split; [done|].
    pose proof Hk as (_ & _ & _ & _ & Hrk)%FormFacts.keyParts_Some.
    assert (chick +:+ "|" +:+ claimUntil ≠ key) as Hne.
    { intros <-. rewrite Hb in Hc. done. }
    intros [|j] r Hr Hrkey; simpl in *.
    + injection Hr as <-. congruence.
    + split; [by right; destruct j|]. by apply Hsame.
  - split; [done|].
    pose proof Hk as (_ & _ & _ & _ & Hrk)%FormFacts.keyParts_Some.
    assert (chick +:+ "|" +:+ claimUntil ≠ key) as Hne.
    { intros <-. rewrite Hb in Hc. done. }
    intros [|j] r Hr Hrkey; simpl in *.
    + injection Hr as <-. congruence.
    + split; [by right; destruct j|]. by apply Hsame.
  - destruct (IH st (S i) (Some chick) Hb) as [Hfin Hrows].
    split; [done|]. intros [|j] r Hr Hrkey; simpl in *.
    + injection Hr as <-. split; [by left|].
      eexists. split; [done|]. unfold bordered. by destruct (decide _).
    + by apply Hrows.
  - destruct (IH st (S i) prev Hb) as [Hfin Hrows].
    split; [done|]. intros [|j] r Hr Hrkey; simpl in *.
    + injection Hr as <-.
      unfold rowKey in Hrkey. rewrite Hk in Hrkey. done.
    + by apply Hrows.
Qed.

Lemma run_length rows : ∀ st i prev,
  length (rowsOut (run st rows i prev)) = length rows
  ∧ (status (run st rows i prev) = Returned →
     length (trace (run st rows i prev)) = length rows).
Proof.
  induction rows as [|row rest IH]; intros st i prev; [done|].
  next_row st row rest i prev; simpl; try done.
  - destruct (IH (consume st (chick +:+ "|" +:+ claimUntil)
       (spliceOut c (bucket (childrenByChickAndEnd st)
          (chick +:+ "|" +:+ claimUntil)))) (S i) (Some chick)) as [-> H].
    split; [done|]. intros Hs. by rewrite H.
  - destruct (IH st (S i) (Some chick)) as [-> H].
    split; [done|]. intros Hs. by rewrite H.
  - destruct (IH st (S i) prev) as [-> H].
    split; [done|]. intros Hs. by rewrite H.
Qed.

Lemma andThen_glue row e r1 r2 :
  andThen row e (glue r1 r2) = glue (andThen row e r1) r2.
Proof. done. Qed.

(** A traversal that reaches the end of a prefix goes on with the rows
    after it, from the state the prefix left. *)
Lemma run_app rows1 rows2 : ∀ st i prev,
  status (run st rows1 i prev) = Returned →
  run st (rows1 ++ rows2) i prev
  = glue (run st rows1 i prev)
      (run (final (run st rows1 i prev)) rows2 (i + length rows1)
         (lastChick prev rows1)).
Proof.
  induction rows1 as [|row rest IH]; intros st i prev Hs.
  - simpl. rewrite Nat.add_0_r. by destruct (run st rows2 i prev).
  - rewrite <- app_comm_cons. simpl lastChick. simpl length.
    replace (i + S (length rest)) with (S i + length rest) by lia.
    revert Hs. next_row st row rest i prev.
    + rewrite (step_fill st row (rest ++ rows2) i prev chick claimUntil c Hk Hc), Hf.
      simpl. intros Hs. by rewrite IH.
    + done.
    + done.
    + rewrite (step_empty st row (rest ++ rows2) i prev chick claimUntil Hk Hc).
      simpl. intros Hs. by rewrite IH.
    + rewrite (step_blank st row (rest ++ rows2) i prev Hk).
      simpl. intros Hs. by rewrite IH.
Qed.

End Host.

End Part000Facts.

(** ** browser-autofiller.js: the traversal *)

Module BrowserAutofillerFacts.
Import Js Form BrowserAutofiller FormFacts.

Lemma plain_step_blank st row rest :
  keyParts row = None →
  processNextRow st (row :: rest)
  = andThen row SkippedBlank (processNextRow st rest).
Proof. intros H. simpl. by rewrite H. Qed.

Lemma plain_step_empty st row rest chick claimUntil :
  keyParts row = Some (chick, claimUntil) →
  bucket (childrenByChickAndEnd st) (chick +:+ "|" +:+ claimUntil) = [] →
  processNextRow st (row :: rest)
  = andThen row NoCandidate (processNextRow st rest).
Proof. intros H Hb. simpl. by rewrite H, Hb. Qed.

Lemma plain_step_fill st row rest chick claimUntil c :
  keyParts row = Some (chick, claimUntil) →
  chosen (trim <$> date_from row)
    (bucket (childrenByChickAndEnd st) (chick +:+ "|" +:+ claimUntil)) = Some c →
  processNextRow st (row :: rest)
  = andThen (fillFields row c) (Filled c) (processNextRow (matched st) rest).
Proof.
  intros H Hc. simpl. rewrite H.
  destruct (bucket _ _) as [|c0 [|c1 more]] eqn:Hb; simpl in Hc.
  - done.
  - by injection Hc as ->.
  - destruct (findExact _ _); by injection Hc as <-.
Qed.

Ltac plain_next_row st row rest :=
  let chick := fresh "chick" in
  let cu := fresh "claimUntil" in
  let Hk := fresh "Hk" in
  let c := fresh "c" in
  let Hc := fresh "Hc" in
  destruct (keyParts row) as [[chick cu]|] eqn:Hk;
  [ destruct (chosen (trim <$> date_from row)
       (bucket (childrenByChickAndEnd st) (chick +:+ "|" +:+ cu)))
      as [c|] eqn:Hc;
    [ rewrite (plain_step_fill st row rest chick cu c Hk Hc)
    | apply chosen_None in Hc;
      rewrite (plain_step_empty st row rest chick cu Hk Hc) ]
  | rewrite (plain_step_blank st row rest Hk) ].

(** The index is never changed and the traversal always reaches the end. *)
Lemma plain_run_index rows : ∀ st,
  childrenByChickAndEnd (final (processNextRow st rows))
  = childrenByChickAndEnd st
  ∧ status (processNextRow st rows) = Returned
  ∧ length (trace (processNextRow st rows)) = length rows.
Proof.
  induction rows as [|row rest IH]; intros st; [done|].
  plain_next_row st row rest; simpl.
  - destruct (IH (matched st)) as (-> & -> & ->). done.
  - destruct (IH st) as (-> & -> & ->). done.
  - destruct (IH st) as (-> & -> & ->). done.
Qed.

Lemma plain_run_matches rows : ∀ st,
  totalMatches (final (processNextRow st rows))
  = totalMatches st + matchedRows (trace (processNextRow st rows))
  ∧ matchedRows (trace (processNextRow st rows)) ≤ length rows.
Proof.
  unfold matchedRows.
  induction rows as [|row rest IH]; intros st; [simpl; lia|].
  plain_next_row st row rest; simpl.
  - destruct (IH (matched st)) as [-> ?]. simpl. lia.
  - destruct (IH st) as [-> ?]. lia.
  - destruct (IH st) as [-> ?]. lia.
Qed.

Lemma plain_run_keyFields rows : ∀ st,
  Forall2 sameKeyFields rows (rowsOut (processNextRow st rows)).
Proof.
  induction rows as [|row rest IH]; intros st; [constructor|].
  plain_next_row st row rest; simpl; constructor; try apply IH; done.
Qed.

(** Every row whose key has a record is filled, however many rows share
    the key. *)
Lemma plain_run_fills rows : ∀ st j row key,
  rows !! j = Some row → rowKey row = Some key →
  bucket (childrenByChickAndEnd st) key ≠ [] →
  ∃ c, trace (processNextRow st rows) !! j = Some (Filled c)
       ∧ c ∈ bucket (childrenByChickAndEnd st) key
       ∧ ∃ row', rowsOut (processNextRow st rows) !! j = Some row'
                 ∧ writtenFrom c row row'.
Proof.
  induction rows as [|row rest IH]; intros st j r key Hj Hkey Hne; [done|].
  plain_next_row st row rest; destruct j as [|j]; simpl in *.
  - injection Hj as <-.
    apply keyParts_Some in Hk as (_ & _ & _ & _ & Hrk).
    rewrite Hrk in Hkey. injection Hkey as <-.
    exists c. split; [done|]. split.
    + destruct (chosen_Some _ _ _ Hc) as (p & Hp & _).
      by eapply list_elem_of_lookup_2.
    + eexists. split; [done|]. done.
  - apply (IH (matched st) j r key Hj Hkey Hne).
  - injection Hj as <-.
    apply keyParts_Some in Hk as (_ & _ & _ & _ & Hrk).
    rewrite Hrk in Hkey. injection Hkey as <-. done.
  - by apply IH.
  - injection Hj as <-. unfold rowKey in Hkey. by rewrite Hk in Hkey.
  - by apply IH.
Qed.

End BrowserAutofillerFacts.

(** ** Dates *)

Module DateFacts.
Import Js JsDate Form Part000.
Local Open Scope Z_scope.

Lemma YearFromDay_spec d :
  DayFromYear (YearFromDay d) <= d < DayFromYear (YearFromDay d + 1).
Proof.
  unfold YearFromDay, DayFromYear.
  repeat match goal with |- context [if ?b then _ else _] => destruct b eqn:? end;
    Z.div_mod_to_equations; lia.
Qed.

Lemma DayFromYear_step y : DayFromYear y + 365 <= DayFromYear (y + 1).
Proof. unfold DayFromYear. Z.div_mod_to_equations. lia. Qed.

Lemma DayFromYear_mono y y' : y <= y' → DayFromYear y <= DayFromYear y'.
Proof.
  intros H. replace y' with (y + Z.of_nat (Z.to_nat (y' - y))) by lia.
  generalize (Z.to_nat (y' - y)) as n. clear.
  induction n as [|n IH]; [rewrite Z.add_0_r; lia|].
  rewrite Nat2Z.inj_succ. unfold Z.succ. rewrite Z.add_assoc.
  pose proof (DayFromYear_step (y + Z.of_nat n)). lia.
Qed.

Lemma YearFromDay_unique y d :
  DayFromYear y <= d < DayFromYear (y + 1) → YearFromDay d = y.
Proof.
  intros [H1 H2]. destruct (YearFromDay_spec d) as [H3 H4].
  destruct (Z.lt_trichotomy (YearFromDay d) y) as [Hlt|[Heq|Hgt]]; [|done|].
  - pose proof (DayFromYear_mono (YearFromDay d + 1) y). lia.
  - pose proof (DayFromYear_mono (y + 1) (YearFromDay d)). lia.
Qed.

Lemma WeekDay_range t : 0 <= WeekDay t < 7.
Proof. unfold WeekDay. apply Z.mod_pos_bound. lia. Qed.

Lemma WeekDay_prev t :
  WeekDay (t - msPerDay) = (WeekDay t + 6) mod 7.
Proof.
  unfold WeekDay, Day, msPerDay.
  replace (t - 86400000) with (t + (-1) * 86400000) by lia.
  rewrite Z.div_add by lia. Z.div_mod_to_equations. lia.
Qed.

Lemma WeekDay_back t k :
  0 <= k → WeekDay (t - k * msPerDay) = (WeekDay t + 6 * k) mod 7.
Proof.
  intros Hk. unfold WeekDay, Day, msPerDay.
  replace (t - k * 86400000) with (t + (- k) * 86400000) by lia.
  rewrite Z.div_add by lia. Z.div_mod_to_equations. lia.
Qed.

Example epoch_is_thursday : WeekDay 0 = 4 ∧ YearFromDay 0 = 1970.
Proof. split; by_evaluation. Qed.

Example first_of_july_2025 :
  isoDateOnly "2025-07-01" = Some (20270 * msPerDay)
  ∧ MakeDay 2025 6 1 = 20270
  ∧ WeekDay (20270 * msPerDay) = 2
  ∧ YearFromDay 20270 = 2025.
Proof. repeat split; by_evaluation. Qed.

Example first_of_september_2025 :
  MakeDay 2025 8 1 = 20332 ∧ WeekDay (20332 * msPerDay) = 1.
Proof. split; by_evaluation. Qed.

Example dates_outside_the_format :
  isoDateOnly "2025-02-30" = None
  ∧ isoDateOnly "2025-7-1" = None
  ∧ isoDateOnly "undefined-undefined-" = None
  ∧ isoDateOnly "2024-02-29" = Some (MakeDay 2024 1 29 * msPerDay).
Proof. repeat split; by_evaluation. Qed.

Example year_ends :
  YearFromDay (DayFromYear 2024 - 1) = 2023
  ∧ YearFromDay (DayFromYear 2024) = 2024
  ∧ DayFromYear 2025 - DayFromYear 2024 = 366.
Proof. repeat split; by_evaluation. Qed.

Section Host.
Variable tz : Z.
Variable implParse : string → Date.

Lemma walkBack_Invalid fuel : walkBack tz fuel Invalid = Diverges.
Proof. induction fuel as [|n IH]; [done|]. simpl. apply IH. Qed.

Lemma walkBack_steps k : ∀ n t,
  (k <= n)%nat → (k < 7)%nat →
  WeekDay (t + tz) = (1 + Z.of_nat k) mod 7 →
  walkBack tz (S n) (Valid t) = Done (Valid (t - Z.of_nat k * msPerDay)).
Proof.
  induction k as [|k IH]; intros n t Hn Hk Hw.
  - simpl. rewrite decide_True; [|by rewrite Hw]. do 2 f_equal. lia.
  - simpl. rewrite decide_False.
    + destruct n as [|n]; [lia|].
      rewrite IH; [do 2 f_equal; lia|lia|lia|].
      replace (t - msPerDay + tz) with (t + tz - msPerDay) by lia.
      rewrite WeekDay_prev, Hw. Z.div_mod_to_equations. lia.
    + rewrite Hw. intros [= H]. revert H. Z.div_mod_to_equations. lia.
Qed.

(** The walk from a valid date ends within seven tests, at the Monday on
    or before it. *)
Lemma walkBack_Valid n t :
  (6 <= n)%nat →
  walkBack tz (S n) (Valid t) = Done (Valid (mondayOnOrBefore tz t)).
Proof.
  intros Hn. unfold mondayOnOrBefore.
  pose proof (WeekDay_range (t + tz)) as Hr.
  set (k := Z.to_nat ((WeekDay (t + tz) + 6) mod 7)).
  assert (Z.of_nat k = (WeekDay (t + tz) + 6) mod 7) as Hk.
  { unfold k. rewrite Z2Nat.id; [done|]. apply Z.mod_pos_bound. lia. }
  rewrite <- Hk. apply walkBack_steps.
  - revert Hk. Z.div_mod_to_equations. lia.
  - revert Hk. Z.div_mod_to_equations. lia.
  - rewrite Hk. Z.div_mod_to_equations. lia.
Qed.

(** More than seven tests never change the answer: [Diverges] stands for
    a loop that does not end. *)
Lemma walkBack_fuel fuel d :
  (7 <= fuel)%nat → walkBack tz fuel d = getFirstMondayBeforeOrOn tz d.
Proof.
  intros H. unfold getFirstMondayBeforeOrOn. destruct d as [t|].
  - destruct fuel as [|n]; [lia|]. rewrite !walkBack_Valid by lia. done.
  - by rewrite !walkBack_Invalid.
Qed.

Lemma getFirstMonday_Valid t :
  getFirstMondayBeforeOrOn tz (Valid t) = Done (Valid (mondayOnOrBefore tz t)).
Proof. apply walkBack_Valid. lia. Qed.

Lemma getFirstMonday_Invalid : getFirstMondayBeforeOrOn tz Invalid = Diverges.
Proof. apply walkBack_Invalid. Qed.

(** The Monday on or before [t]: a Monday in local time, at most six days
    back, and no day in between is a Monday. *)
Lemma mondayOnOrBefore_spec t :
  WeekDay (mondayOnOrBefore tz t + tz) = 1
  ∧ ∃ k, 0 <= k <= 6 ∧ mondayOnOrBefore tz t = t - k * msPerDay
         ∧ ∀ j, 0 <= j < k → WeekDay (t - j * msPerDay + tz) ≠ 1.
Proof.
  unfold mondayOnOrBefore.
  pose proof (WeekDay_range (t + tz)) as Hr.
  set (w := WeekDay (t + tz)) in *.
  split.
  - replace (t - (w + 6) mod 7 * msPerDay + tz)
      with (t + tz - (w + 6) mod 7 * msPerDay) by lia.
    rewrite WeekDay_back by (apply Z.mod_pos_bound; lia).
    fold w. Z.div_mod_to_equations. lia.
  - exists ((w + 6) mod 7). split; [Z.div_mod_to_equations; lia|].
    split; [done|]. intros j Hj.
    replace (t - j * msPerDay + tz) with (t + tz - j * msPerDay) by lia.
    rewrite WeekDay_back by lia. fold w.
    revert Hj. Z.div_mod_to_equations. lia.
Qed.

Lemma scanEntries_app date l1 l2 :
  scanEntries implParse date (l1 ++ l2)
  = match scanEntries implParse date l1 with
    | Some name => Some name
    | None => scanEntries implParse date l2
    end.
Proof.
  induction l1 as [|[name [s e]] l1 IH]; simpl; [done|].
  by destruct (geb date _ && leb date _).
Qed.

(** The two nested loops visit the ranges in the order of the table. *)
Lemma scanYears_flat date years :
  scanYears implParse date years
  = scanEntries implParse date (concat (snd <$> years)).
Proof.
  induction years as [|[label entries] years IH]; simpl; [done|].
  rewrite scanEntries_app, IH. done.
Qed.

Lemma scanEntries_ranges t entries ranges :
  (λ e, (e.1, (parseDate implParse e.2.1, parseDate implParse e.2.2))) <$> entries
  = (λ r, (r.1, (Valid r.2.1, Valid r.2.2))) <$> ranges →
  scanEntries implParse (Valid t) entries = firstContaining t ranges.
Proof.
  revert ranges. induction entries as [|[name [s e]] entries IH];
    intros [|[name' [s' e']] ranges]; simpl; try done.
  intros [= -> -> -> H]. rewrite (IH ranges H). done.
Qed.

(** The dates of the table do not depend on the host. *)
Lemma table_dates :
  (λ e, (e.1, (parseDate implParse e.2.1, parseDate implParse e.2.2)))
    <$> concat (snd <$> schoolHolidays)
  = (λ r, (r.1, (Valid r.2.1, Valid r.2.2))) <$> termRanges.
Proof. vm_compute. reflexivity. Qed.

Lemma scanYears_table t :
  scanYears implParse (Valid t) schoolHolidays = firstContaining t termRanges.
Proof. rewrite scanYears_flat. apply scanEntries_ranges, table_dates. Qed.

End Host.

End DateFacts.

(** ** part_000: holidays, staleness and how a fill ends *)

Module AnnotationFacts.
Import Js JsDate Form Part000 DateFacts.
Local Open Scope Z_scope.

Lemma Done_inj {A} (a b : A) : Done a = Done b → a = b.
Proof. by intros [= ->]. Qed.

Lemma firstContaining_elem t ranges name :
  firstContaining t ranges = Some name → name ∈ ranges.*1.
Proof.
  induction ranges as [|[n [s e]] ranges IH]; simpl; [done|].
  destruct (_ && _).
  - intros [= <-]. by left.
  - intros H. right. by apply IH.
Qed.

(** No range of the table is named like the summer. *)
Lemma termRanges_no_summer t :
  firstContaining t termRanges ≠ Some "Summer Holidays".
Proof.
  intros H%firstContaining_elem. revert H.
  change (termRanges.*1)
    with ["October Holidays"; "Christmas Holidays"; "February Holidays";
          "Easter Holidays"; "October Holidays"; "Christmas Holidays";
          "February Holidays"; "Easter Holidays"].
  rewrite !elem_of_cons, elem_of_nil.
  intros [H|[H|[H|[H|[H|[H|[H|[H|[]]]]]]]]]; discriminate H.
Qed.

Lemma firstContaining_spec t ranges name :
  firstContaining t ranges = Some name ↔
  ∃ i s e, ranges !! i = Some (name, (s, e)) ∧ s <= t <= e
           ∧ ∀ j name' s' e', (j < i)%nat → ranges !! j = Some (name', (s', e')) →
                              ¬ (s' <= t <= e').
Proof.
  induction ranges as [|[n [s e]] ranges IH]; simpl.
  - split; [done|]. by intros (i & s & e & H & _).
  - destruct ((s <=? t) && (t <=? e)) eqn:E.
    + apply andb_true_iff in E as [E1%Z.leb_le E2%Z.leb_le]. split.
      * intros [= <-]. exists 0%nat, s, e.
        split; [done|]. split; [lia|]. intros j ? ? ? Hj. lia.
      * intros ([|i] & s0 & e0 & Hi & Hin & Hmin); simpl in Hi.
        -- by injection Hi as -> _ _.
        -- destruct (Hmin 0%nat n s e); [lia|done|lia].
    + assert (¬ (s <= t <= e)) as Hout.
      { apply andb_false_iff in E as [E%Z.leb_gt|E%Z.leb_gt]; lia. }
      rewrite IH. split.
      * intros (i & s0 & e0 & Hi & Hin & Hmin). exists (S i), s0, e0.
        split; [done|]. split; [done|].
        intros [|j] n' s' e' Hj Hl; simpl in Hl.
        -- by injection Hl as <- <- <-.
        -- apply (Hmin j n' s' e'); [lia|done].
      * intros ([|i] & s0 & e0 & Hi & Hin & Hmin); simpl in Hi.
        -- by injection Hi as <- <- <-.
        -- exists i, s0, e0. split; [done|]. split; [done|].
           intros j n' s' e' Hj Hl. apply (Hmin (S j) n' s' e'); [lia|done].
Qed.

Section Host.
Variable tz : Z.
Variable implParse : string → Date.

Lemma fromLocal_year y month :
  ¬ (0 <= y <= 99) →
  fromLocal tz (Some y) month 1 = Valid (firstOfMonth tz y month).
Proof.
  intros Hy. unfold fromLocal, firstOfMonth.
  destruct ((0 <=? y) && (y <=? 99)) eqn:E; [|done].
  apply andb_true_iff in E as [?%Z.leb_le ?%Z.leb_le]. lia.
Qed.

(** The lookup of a valid date ends, whatever the year. *)
Lemma getHolidayName_ends t :
  ∃ holiday, getHolidayName tz implParse (Valid t) = Done holiday.
Proof.
  unfold getHolidayName, fromLocal, getFullYear. cbv beta iota zeta.
  rewrite !getFirstMonday_Valid. destruct (_ && _); eauto.
Qed.

(** The lookup of an invalid date never ends. *)
Lemma getHolidayName_hangs : getHolidayName tz implParse Invalid = Diverges.
Proof.
  unfold getHolidayName, getFullYear, fromLocal.
  by rewrite getFirstMonday_Invalid.
Qed.

Lemma getHolidayName_Valid t :
  let y := YearFromTime (t + tz) in
  ¬ (0 <= y <= 99) →
  getHolidayName tz implParse (Valid t)
  = if (mondayOnOrBefore tz (firstOfMonth tz y 6) <=? t)
       && (t <? mondayOnOrBefore tz (firstOfMonth tz y 8))
    then Done (Some "Summer Holidays")
    else Done (firstContaining t termRanges).
Proof.
  intros y Hy. unfold getHolidayName, getFullYear. fold y.
  rewrite !fromLocal_year, !getFirstMonday_Valid by done.
  unfold geb, ltb. by rewrite scanYears_table.
Qed.

Lemma Day_midnight d : Day (d * msPerDay) = d.
Proof. unfold Day, msPerDay. by rewrite Z.div_mul. Qed.

Lemma MakeDay_july y : MakeDay y 6 1 = DayFromYear y + 181 + (if InLeapYear y then 1 else 0).
Proof.
  unfold MakeDay. change (6 / 12) with 0. change (6 mod 12) with 6.
  rewrite Z.add_0_r. unfold monthStart. lia.
Qed.

(** The day before the summer start of year [y] lies in year [y]. *)
Lemma day_before_summer_year y :
  YearFromTime (mondayOnOrBefore tz (firstOfMonth tz y 6) - msPerDay + tz) = y.
Proof.
  destruct (mondayOnOrBefore_spec tz (firstOfMonth tz y 6)) as (_ & k & Hk & -> & _).
  unfold firstOfMonth, YearFromTime.
  replace (MakeDay y 6 1 * msPerDay - tz - k * msPerDay - msPerDay + tz)
    with ((MakeDay y 6 1 - k - 1) * msPerDay) by lia.
  rewrite Day_midnight, MakeDay_july. apply YearFromDay_unique.
  pose proof (DayFromYear_step y). destruct (InLeapYear y); lia.
Qed.

(** Seen by calendar day, for a host at or east of UTC (less than a day):
    a date parsed from DD/MM/YYYY (midnight UTC of day [d]) is in summer
    exactly when [d] lies between the Monday on or before July 1st
    (included) and the Monday on or before September 1st (excluded) of its
    year.  West of UTC the two bounds fall some hours into their days, and
    the first day of the range is left out while the day of the end is
    taken in. *)
Lemma summer_by_calendar_day d :
  0 <= tz < msPerDay →
  let y := YearFromDay d in
  ¬ (0 <= y <= 99) →
  getHolidayName tz implParse (Valid (d * msPerDay)) = Done (Some "Summer Holidays")
  ↔ mondayDay (MakeDay y 6 1) <= d < mondayDay (MakeDay y 8 1).
Proof.
  intros Htz y Hy.
  assert (YearFromTime (d * msPerDay + tz) = y) as Hyear.
  { unfold YearFromTime, y. f_equal. unfold Day, msPerDay in *.
    Z.div_mod_to_equations. lia. }
  assert (∀ m, mondayOnOrBefore tz (firstOfMonth tz y m)
               = mondayDay (MakeDay y m 1) * msPerDay - tz) as Hmon.
  { intros m. unfold mondayOnOrBefore, firstOfMonth, mondayDay, WeekDay.
    replace (MakeDay y m 1 * msPerDay - tz + tz) with (MakeDay y m 1 * msPerDay) by lia.
    rewrite Day_midnight. lia. }
  rewrite getHolidayName_Valid; rewrite Hyear; [|done].
  rewrite !Hmon.
  destruct ((_ <=? _) && (_ <? _)) eqn:E.
  - apply andb_true_iff in E as [E1%Z.leb_le E2%Z.ltb_lt].
    split; [|done]. intros _. unfold msPerDay in *. lia.
  - split; [intros H%Done_inj; by destruct (termRanges_no_summer (d * msPerDay))|].
    apply andb_false_iff in E as [E%Z.leb_gt|E%Z.ltb_ge]; unfold msPerDay in *; lia.
Qed.

(** The Date constructor reads the years 0 to 99 as 1900 to 1999: for a
    date in such a year the summer looked at is that of the year 1900
    later. *)
Lemma fromLocal_two_digit_year y month :
  0 <= y <= 99 →
  fromLocal tz (Some y) month 1 = Valid (firstOfMonth tz (1900 + y) month).
Proof.
  intros Hy. unfold fromLocal, firstOfMonth.
  destruct ((0 <=? y) && (y <=? 99)) eqn:E; [done|].
  apply andb_false_iff in E as [E%Z.leb_gt|E%Z.leb_gt]; lia.
Qed.

(** What holds of the lookup, on time values.  For a query date D (a
    valid date whose local year is not one of 0 to 99): the summer start
    and end are the Mondays on or before local midnight of July 1st and of
    September 1st of D's year, each reached by
    walking back one day at a time from the 1st until the day is a Monday;
    the lookup returns "Summer Holidays" exactly when D lies in
    [summerStart, summerEnd); the day before the summer start is not in
    summer; outside the summer range the lookup returns the first range of
    the table, in its order, whose start and end enclose D (both
    included), or nothing; and 01/07/2025 is in summer for every host less
    than a day away from UTC. *)
Theorem holiday_lookup (t : Z) :
  let y := YearFromTime (t + tz) in
  ¬ (0 <= y <= 99) →
  let summerStart := mondayOnOrBefore tz (firstOfMonth tz y 6) in
  let summerEnd := mondayOnOrBefore tz (firstOfMonth tz y 8) in
  getFirstMondayBeforeOrOn tz (fromLocal tz (getFullYear tz (Valid t)) 6 1)
    = Done (Valid summerStart)
  ∧ getFirstMondayBeforeOrOn tz (fromLocal tz (getFullYear tz (Valid t)) 8 1)
    = Done (Valid summerEnd)
  ∧ (WeekDay (summerStart + tz) = 1
     ∧ ∃ k, 0 <= k <= 6 ∧ summerStart = firstOfMonth tz y 6 - k * msPerDay
            ∧ ∀ j, 0 <= j < k →
                   WeekDay (firstOfMonth tz y 6 - j * msPerDay + tz) ≠ 1)
  ∧ (WeekDay (summerEnd + tz) = 1
     ∧ ∃ k, 0 <= k <= 6 ∧ summerEnd = firstOfMonth tz y 8 - k * msPerDay
            ∧ ∀ j, 0 <= j < k →
                   WeekDay (firstOfMonth tz y 8 - j * msPerDay + tz) ≠ 1)
  ∧ (getHolidayName tz implParse (Valid t) = Done (Some "Summer Holidays")
     ↔ summerStart <= t < summerEnd)
  ∧ getHolidayName tz implParse (Valid (summerStart - msPerDay))
    ≠ Done (Some "Summer Holidays")
  ∧ (¬ (summerStart <= t < summerEnd) →
     getHolidayName tz implParse (Valid t) = Done (firstContaining t termRanges)
     ∧ (∀ name, firstContaining t termRanges = Some name ↔
          ∃ i s e, termRanges !! i = Some (name, (s, e)) ∧ s <= t <= e
            ∧ ∀ j name' s' e', (j < i)%nat →
                termRanges !! j = Some (name', (s', e')) → ¬ (s' <= t <= e'))
     ∧ (λ e, (e.1, (parseDate implParse e.2.1, parseDate implParse e.2.2)))
         <$> concat (snd <$> schoolHolidays)
       = (λ r, (r.1, (Valid r.2.1, Valid r.2.2))) <$> termRanges)
  ∧ (- msPerDay < tz < msPerDay →
     getHolidayName tz implParse (parseDate implParse "01/07/2025")
     = Done (Some "Summer Holidays")).
Proof.
  intros y Hy summerStart summerEnd.
  assert (∀ t', YearFromTime (t' + tz) = y →
            getHolidayName tz implParse (Valid t')
            = if (summerStart <=? t') && (t' <? summerEnd)
              then Done (Some "Summer Holidays")
              else Done (firstContaining t' termRanges)) as Hname.
  { intros t' Ht'. rewrite getHolidayName_Valid; rewrite Ht'; done. }
  pose proof termRanges_no_summer as Hterm.
  split; [|split; [|split; [|split; [|split; [|split; [|split]]]]]].
  - unfold getFullYear. fold y. by rewrite fromLocal_year, getFirstMonday_Valid.
  - unfold getFullYear. fold y. by rewrite fromLocal_year, getFirstMonday_Valid.
  - apply mondayOnOrBefore_spec.
  - apply mondayOnOrBefore_spec.
  - rewrite Hname by done.
    destruct ((summerStart <=? t) && (t <? summerEnd)) eqn:E.
    + apply andb_true_iff in E as [?%Z.leb_le ?%Z.ltb_lt]. split; [lia|done].
    + split; [intros H%Done_inj; by destruct (Hterm t)|].
      apply andb_false_iff in E as [E%Z.leb_gt|E%Z.ltb_ge]; lia.
  - rewrite Hname by apply day_before_summer_year.
    assert ((summerStart <=? summerStart - msPerDay) = false) as ->.
    { apply Z.leb_gt. unfold msPerDay. lia. }
    rewrite andb_false_l. intros H%Done_inj.
    by destruct (Hterm (summerStart - msPerDay)).
  - intros Hout. rewrite Hname by done.
    destruct ((summerStart <=? t) && (t <? summerEnd)) eqn:E.
    + apply andb_true_iff in E as [?%Z.leb_le ?%Z.ltb_lt]. lia.
    + split; [done|]. split; [|apply table_dates].
      intros name. apply firstContaining_spec.
  - intros Htz.
    assert (parseDate implParse "01/07/2025" = Valid (20270 * msPerDay)) as ->
      by (vm_compute; reflexivity).
    assert (YearFromTime (20270 * msPerDay + tz) = 2025) as Hyear.
    { unfold YearFromTime. apply YearFromDay_unique.
      change (DayFromYear 2025) with 20089. change (DayFromYear (2025 + 1)) with 20454.
      unfold Day. unfold msPerDay in *. Z.div_mod_to_equations. lia. }
    rewrite getHolidayName_Valid; rewrite Hyear; [|lia].
    unfold mondayOnOrBefore, firstOfMonth.
    change (MakeDay 2025 6 1) with 20270. change (MakeDay 2025 8 1) with 20332.
    replace (20270 * msPerDay - tz + tz) with (20270 * msPerDay) by lia.
    replace (20332 * msPerDay - tz + tz) with (20332 * msPerDay) by lia.
    unfold WeekDay. rewrite !Day_midnight.
    change ((20270 + 4) mod 7) with 2. change ((20332 + 4) mod 7) with 1.
    change ((2 + 6) mod 7) with 1. change ((1 + 6) mod 7) with 0.
    destruct ((_ <=? _) && (_ <? _)) eqn:E; [done|].
    apply andb_false_iff in E as [E%Z.leb_gt|E%Z.ltb_ge]; unfold msPerDay in *; lia.
Qed.

End Host.

Lemma holiday_lookup_witness :
  let tz := 3600000 in
  let implParse := λ _ : string, Invalid in
  getHolidayName tz implParse (parseDate implParse "15/07/2025")
    = Done (Some "Summer Holidays")
  ∧ getHolidayName tz implParse (parseDate implParse "29/06/2025") = Done None
  ∧ getHolidayName tz implParse (parseDate implParse "01/09/2025") = Done None
  ∧ getHolidayName tz implParse (parseDate implParse "24/12/2025")
    = Done (Some "Christmas Holidays").
Proof.
  intros tz implParse.
  assert (¬ (0 <= YearFromTime (MakeDay 2025 6 15 * msPerDay + tz) <= 99)) as Hy
    by (vm_compute; intros [_ H]; apply H; reflexivity).
  destruct (holiday_lookup tz implParse (MakeDay 2025 6 15 * msPerDay) Hy)
    as (_ & _ & _ & _ & Hsummer & _).
  split; [|repeat split; by_evaluation].
  replace (parseDate implParse "15/07/2025")
    with (Valid (MakeDay 2025 6 15 * msPerDay)) by by_evaluation.
  apply Hsummer. vm_compute. split; [intros H; discriminate H|reflexivity].
Defined.

(** C5 on part_000.  The Monday on or before 1 July 2025 is 30 June and
    the Monday on or before 1 September 2025 is 1 September itself, so the
    summer of 2025 is 30/06/2025 (included) to 01/09/2025 (excluded), and
    that is what a host at UTC gets.  A start date is parsed as midnight
    UTC while the two bounds are local midnights: on a host five hours
    west of UTC 30/06/2025 gets no holiday and 01/09/2025 gets Summer
    Holidays.  For a date in the year 50 the bounds are those of 1950, and
    the date gets nothing although 15 July is in the range of its year.
    For an empty start date, which parses to an invalid date, the lookup
    never returns. *)
Lemma summer_range_departs :
  let lookup := λ tz str,
    getHolidayName tz Samples.sampleHost (parseDate Samples.sampleHost str) in
  mondayDay (MakeDay 2025 6 1) = MakeDay 2025 5 30
  ∧ mondayDay (MakeDay 2025 8 1) = MakeDay 2025 8 1
  ∧ lookup 0 "30/06/2025" = Done (Some "Summer Holidays")
  ∧ lookup 0 "01/09/2025" = Done None
  ∧ lookup Samples.fiveHoursWest "30/06/2025" = Done None
  ∧ lookup Samples.fiveHoursWest "01/09/2025" = Done (Some "Summer Holidays")
  ∧ lookup 0 "15/07/1950" = Done (Some "Summer Holidays")
  ∧ lookup 0 "15/07/0050" = Done None
  ∧ lookup 0 "" = Diverges.
Proof. intros lookup. unfold lookup. repeat split; by_evaluation. Qed.

End AnnotationFacts.

(** ** part_000: what a fill writes and how it ends *)

Module FillFacts.
Import Js JsDate Form Part000 Samples DateFacts AnnotationFacts.
Local Open Scope Z_scope.

Section Host.
Variable tz : Z.
Variable implParse : string → Date.

Abbreviation fill := (fillFields tz implParse).

(** The call throws exactly when a date field is missing, never returns
    exactly when the row has a last cell and the start date is invalid,
    and returns otherwise. *)
Lemma fill_status now row c :
  (fill now row c).2
  = match c !! "Funding Start", c !! "Claim Until" with
    | Some fundingStart, Some _ =>
        match badges row, parseDate implParse fundingStart with
        | Some _, Invalid => Hung
        | _, _ => Returned
        end
    | _, _ => Threw
    end.
Proof.
  unfold fillFields.
  destruct (c !! "Funding Start") as [fs|], (c !! "Claim Until") as [cu|]; try done.
  cbn [badges withLook writeInputs withInputs].
  destruct (badges row) as [bs|]; [|done].
  destruct (parseDate implParse fs) as [t|].
  - by destruct (getHolidayName_ends tz implParse t) as [h ->].
  - by rewrite getHolidayName_hangs.
Qed.

Lemma fill_look now row c fundingStart claimUntil :
  c !! "Funding Start" = Some fundingStart →
  c !! "Claim Until" = Some claimUntil →
  look (fill now row c).1
  = Some (classify now c (parseDate implParse claimUntil)).
Proof.
  intros Hfs Hcu. unfold fillFields. rewrite Hfs, Hcu.
  cbn [badges withLook writeInputs withInputs].
  destruct (badges row) as [bs|]; [|done].
  by destruct (getHolidayName _ _ _).
Qed.

Lemma isOldPeriod_Valid now e :
  isOldPeriod now (Valid e) = true ↔ 90 * msPerDay < now - e.
Proof. unfold isOldPeriod. apply Z.ltb_lt. Qed.

(** A record marked as a base period is styled as one, whatever its age. *)
Lemma fill_look_base now row c fundingStart claimUntil :
  c !! "Funding Start" = Some fundingStart →
  c !! "Claim Until" = Some claimUntil →
  isBasePeriod c = true →
  look (fill now row c).1 = Some Base.
Proof.
  intros Hfs Hcu Hb. rewrite (fill_look _ _ _ _ _ Hfs Hcu).
  unfold classify. by rewrite Hb.
Qed.

(** C4, amended.  For a filled record whose note does not contain "Base"
    and whose period-end parses to the time value [e]: the row gets the
    stale style exactly when more than 90 days' worth of milliseconds lie
    between [e] and the current time, and the fresh style otherwise; at
    exactly 90 days it is fresh. *)
Theorem stale_after_90_days now row data fundingStart claimUntil e :
  data !! "Funding Start" = Some fundingStart →
  data !! "Claim Until" = Some claimUntil →
  parseDate implParse claimUntil = Valid e →
  isBasePeriod data = false →
  (look (fillFields tz implParse now row data).1 = Some Old
   ↔ 90 * msPerDay < now - e)
  ∧ (look (fillFields tz implParse now row data).1 = Some Fresh
     ↔ now - e <= 90 * msPerDay)
  ∧ (now - e = 90 * msPerDay →
     look (fillFields tz implParse now row data).1 = Some Fresh).
Proof.
  intros Hfs Hcu He Hb. rewrite (fill_look _ _ _ _ _ Hfs Hcu), He.
  unfold classify, isOldPeriod. rewrite Hb.
  destruct (90 * msPerDay <? now - e) eqn:E.
  - apply Z.ltb_lt in E. repeat split; try done; try lia.
  - apply Z.ltb_ge in E. repeat split; try done; try lia.
Qed.

End Host.

Lemma stale_after_90_days_witness :
  let data : gmap string string :=
    {[ "CHICK" := "A12"; "Claim Until" := "31/12/2025";
       "Funding Start" := "01/09/2025"; "Note" := "renewal" ]} in
  let e := MakeDay 2025 11 31 * msPerDay in
  look (fillFields 0 sampleHost (e + 90 * msPerDay + 1) sampleRow data).1 = Some Old
  ∧ look (fillFields 0 sampleHost (e + 90 * msPerDay) sampleRow data).1 = Some Fresh.
Proof.
  intros data e.
  assert (data !! "Funding Start" = Some "01/09/2025") as Hfs by by_evaluation.
  assert (data !! "Claim Until" = Some "31/12/2025") as Hcu by by_evaluation.
  assert (parseDate sampleHost "31/12/2025" = Valid e) as He by by_evaluation.
  assert (isBasePeriod data = false) as Hb by by_evaluation.
  split.
  - apply (stale_after_90_days 0 sampleHost _ sampleRow data _ _ e Hfs Hcu He Hb).
    lia.
  - apply (stale_after_90_days 0 sampleHost _ sampleRow data _ _ e Hfs Hcu He Hb).
    lia.
Defined.

(** A base-period record that ended years ago is not styled stale. *)
Lemma base_period_not_stale :
  let data : gmap string string :=
    {[ "CHICK" := "A12"; "Claim Until" := "31/12/2020";
       "Funding Start" := "01/09/2020"; "Note" := "Base rate" ]} in
  let now := MakeDay 2025 0 1 * msPerDay in
  parseDate sampleHost "31/12/2020" = Valid (MakeDay 2020 11 31 * msPerDay)
  ∧ 90 * msPerDay < now - MakeDay 2020 11 31 * msPerDay
  ∧ look (fillFields 0 sampleHost now sampleRow data).1 = Some Base.
Proof. split; [by_evaluation|]. split; [vm_compute; reflexivity|by_evaluation]. Qed.

(** C6, amended.  The hour-rate input receives the record's hourly rate
    with every character other than the digits and the dot deleted; the
    characters kept stay in their order and every dot of the input is
    kept, so the value written has as many dots as the input. *)
Theorem hour_rate_written (hr : string) :
  (∀ tz implParse now row data cell,
     data !! "Hour rate" = Some hr → hour_rate row = Some cell →
     hour_rate (fillFields tz implParse now row data).1
     = Some (stripNonNumeric hr))
  ∧ (∀ row data cell,
       data !! "Hour rate" = Some hr → hour_rate row = Some cell →
       hour_rate (BrowserAutofiller.fillFields row data)
       = Some (stripNonNumeric hr))
  ∧ (∀ row data weeklyTotalValue cell,
       data !! "Hour rate" = Some hr → Sheet.hour_rate row = Some cell →
       Sheet.hour_rate (Sheet.fillRowData row data weeklyTotalValue)
       = Some (stripNonNumeric hr))
  ∧ String.list_ascii_of_string (stripNonNumeric hr)
    = List.filter (λ a, isDigit a || isDot a) (String.list_ascii_of_string hr)
  ∧ count isDot (stripNonNumeric hr) = count isDot hr.
Proof.
  split; [|split; [|split; [|split]]].
  - intros tz implParse now row data cell Hhr Hcell.
    destruct (Part000Facts.fill_written tz implParse now row data) as (_ & _ & ->).
    by rewrite Hhr, Hcell.
  - intros row data cell Hhr Hcell. simpl. by rewrite Hhr, Hcell.
  - intros row data w cell Hhr Hcell. simpl. by rewrite Hhr, Hcell.
  - apply JsFacts.stripNonNumeric_filter.
  - apply JsFacts.stripNonNumeric_dots.
Qed.

Lemma hour_rate_written_witness :
  let data : gmap string string :=
    {[ "Funding Start" := "01/09/2025"; "Claim Until" := "31/12/2025";
       "Hour rate" := "EUR 1,234.50 /h" ]} in
  hour_rate (fillFields 0 sampleHost 0 sampleRow data).1 = Some "1234.50".
Proof.
  intros data.
  destruct (hour_rate_written "EUR 1,234.50 /h") as (H & _).
  rewrite (H 0 sampleHost 0 sampleRow data ""); [by_evaluation| |]; by_evaluation.
Defined.

(** A rate with two dots keeps both. *)
Lemma hour_rate_two_dots :
  let data : gmap string string :=
    {[ "Funding Start" := "01/09/2025"; "Claim Until" := "31/12/2025";
       "Hour rate" := "1.234.50" ]} in
  hour_rate (fillFields 0 sampleHost 0 sampleRow data).1 = Some "1.234.50"
  ∧ count isDot "1.234.50" = 2%nat
  ∧ Sheet.hour_rate
      (Sheet.fillRowData
         {| Sheet.chickCell := Some "A12"; Sheet.date_from := Some "";
            Sheet.weekly_total := Some ""; Sheet.hour_rate := Some "";
            Sheet.highlight := None |} data None)
    = Some "1.234.50".
Proof. repeat split; by_evaluation. Qed.

End FillFacts.

(** ** part_001: the dialog and the two drivers *)

Module SheetFacts.
Import Js Sheet Samples.

Lemma includes_nonempty sub s a :
  includes (String a sub) s = true → s ≠ "".
Proof. destruct s; [done|]. done. Qed.

Lemma needsChoice_slash w :
  includes "/" w = true → needsChoice (Some w) = true.
Proof.
  intros H. unfold needsChoice, truthy. rewrite H.
  rewrite bool_decide_eq_false_2; [done|]. by eapply includes_nonempty.
Qed.

Lemma split_length sep s : (0 < length (split sep s))%nat.
Proof.
  induction s as [|a s IH]; simpl; [lia|].
  destruct (decide (a = sep)); simpl; [lia|].
  destruct (split sep s); simpl; lia.
Qed.

Lemma fill_keeps_cell row childData w :
  chickCell (fillRowData row childData w) = chickCell row.
Proof. done. Qed.

Section First.
Variable operator : nat → list string → Choice.
Abbreviation runA := (Part001a.processRowsSequentially operator).

(** No driver writes the cell the identifier is read from. *)
Lemma first_keeps_cells idx rows : ∀ i n,
  Forall2 (λ row row', chickCell row' = chickCell row) rows
    (rowsOut (runA idx rows i n)).
Proof.
  induction rows as [|row rest IH]; intros i n; [constructor|].
  assert (Forall2 (λ row row', chickCell row' = chickCell row) rest rest) as Hrefl.
  { clear. induction rest; constructor; done. }
  simpl. destruct (chickCell row) as [text|] eqn:Hcell; [|by constructor].
  destruct (idx !! trim text) as [childData|]; [|by constructor].
  destruct (needsChoice _); [|by constructor].
  destruct (operator i _) as [k|]; [|by constructor].
  destruct (_ !! k); by constructor.
Qed.

(** The counter the traversal starts from only shifts the count it
    reports. *)
Lemma first_count_shift idx rows : ∀ i n,
  reported (runA idx rows i (S n)) = S (reported (runA idx rows i n))
  ∧ rowsOut (runA idx rows i (S n)) = rowsOut (runA idx rows i n)
  ∧ trace (runA idx rows i (S n)) = trace (runA idx rows i n)
  ∧ status (runA idx rows i (S n)) = status (runA idx rows i n).
Proof.
  induction rows as [|row rest IH]; intros i n; [done|].
  simpl. destruct (chickCell row) as [text|]; [|simpl; by destruct (IH (S i) n) as (-> & -> & -> & ->)].
  destruct (idx !! trim text) as [childData|];
    [|simpl; by destruct (IH (S i) n) as (-> & -> & -> & ->)].
  destruct (needsChoice _);
    [|simpl; by destruct (IH (S i) (S n)) as (-> & -> & -> & ->)].
  destruct (operator i _) as [k|];
    [|simpl; by destruct (IH (S i) n) as (-> & -> & -> & ->)].
  destruct (_ !! k); [|done].
  simpl; by destruct (IH (S i) (S n)) as (-> & -> & -> & ->).
Qed.

End First.

(** The traversal asks the operator only about the rows it still has to
    visit. *)
Lemma first_operator_ext operator operator' idx rows : ∀ i n,
  (∀ j values, i ≤ j → operator j values = operator' j values) →
  Part001a.processRowsSequentially operator idx rows i n
  = Part001a.processRowsSequentially operator' idx rows i n.
Proof.
  induction rows as [|row rest IH]; intros i n Hext; [done|].
  assert (∀ m, Part001a.processRowsSequentially operator idx rest (S i) m
               = Part001a.processRowsSequentially operator' idx rest (S i) m) as Hrest.
  { intros m. apply IH. intros j values Hj. apply Hext. lia. }
  simpl. destruct (chickCell row) as [text|]; [|by rewrite Hrest].
  destruct (idx !! trim text) as [childData|]; [|by rewrite Hrest].
  destruct (needsChoice _); [|by rewrite Hrest].
  rewrite Hext by lia. by rewrite !Hrest.
Qed.

(** In the first script a row with several weekly totals is never written
    directly: the dialog offers the values between the slashes; a chosen
    value is written and counted; a skip leaves the three inputs as they
    were, counts nothing, and the traversal goes on with the next row and
    the same index, so the final count is one less than with a choice. *)
Lemma first_dialog operator operator' idx row rest i n text childData w k v :
  chickCell row = Some text →
  idx !! trim text = Some childData →
  childData !! "Weekly Total" = Some w →
  includes "/" w = true →
  operator i (split "/"%char w) = SkipRow →
  operator' i (split "/"%char w) = Select k →
  split "/"%char w !! k = Some v →
  (∀ j values, i < j → operator j values = operator' j values) →
  let skipped := Part001a.processRowsSequentially operator idx (row :: rest) i n in
  let selected := Part001a.processRowsSequentially operator' idx (row :: rest) i n in
  trace skipped !! 0 = Some (Prompted (split "/"%char w) SkipRow)
  ∧ trace selected !! 0 = Some (Prompted (split "/"%char w) (Select k))
  ∧ rowsOut skipped !! 0 = Some (withHighlight pending row)
  ∧ (∃ row', rowsOut selected !! 0 = Some row'
             ∧ weekly_total row' = setValue (weekly_total row) v)
  ∧ skipped
    = andThen (withHighlight pending row) (Prompted (split "/"%char w) SkipRow)
        (Part001a.processRowsSequentially operator idx rest (S i) n)
  ∧ reported selected = S (reported skipped)
  ∧ status selected = status skipped.
Proof.
  intros Hcell Hidx Hw Hslash Hskip Hsel Hv Hext skipped selected.
  unfold skipped, selected. simpl.
  rewrite Hcell, Hidx, Hw, (needsChoice_slash w Hslash). simpl orEmpty.
  rewrite Hskip, Hsel, Hv. simpl.
  rewrite <- (first_operator_ext operator operator' idx rest (S i) (S n))
    by (intros; apply Hext; lia).
  destruct (first_count_shift operator idx rest (S i) n) as (-> & _ & _ & ->).
  repeat split; try done. eexists. split; [done|]. done.
Qed.

Section Second.
Variable operator : nat → list string → Choice.
Abbreviation runB := (Part001b.processRowsSequentially operator).

Lemma second_keeps_cells rows : ∀ i idx n,
  Forall2 (λ row row', chickCell row' = chickCell row) rows
    (rowsOut (runB rows i idx n)).
Proof.
  induction rows as [|row rest IH]; intros i idx n; [constructor|].
  assert (Forall2 (λ row row', chickCell row' = chickCell row) rest rest) as Hrefl.
  { clear. induction rest; constructor; done. }
  simpl. destruct (chickCell row) as [text|] eqn:Hcell; [|by constructor].
  destruct (idx !! trim text) as [childData|]; [|by constructor].
  destruct (needsChoice _); [|by constructor].
  destruct (operator i _) as [k|]; [|by constructor].
  destruct (_ !! k); by constructor.
Qed.

(** With an empty index nothing more is filled or counted. *)
Lemma second_empty_index rows : ∀ i n,
  reported (runB rows i ∅ n) = n
  ∧ rowsOut (runB rows i ∅ n) = rows
  ∧ Forall (λ e, e = NoCell ∨ e = NoMatch) (trace (runB rows i ∅ n)).
Proof.
  induction rows as [|row rest IH]; intros i n; [done|].
  simpl. destruct (IH (S i) n) as (H1 & H2 & H3).
  destruct (chickCell row) as [text|]; simpl.
  - rewrite lookup_empty. simpl. rewrite H1, H2. repeat split; try done.
    constructor; [by right|done].
  - rewrite H1, H2. repeat split; try done. constructor; [by left|done].
Qed.

(** In the second script a skip goes on with an empty index and a count
    of zero: whatever was counted before is lost, and no later row is
    filled. *)
Lemma second_skip idx row rest i n text childData w :
  chickCell row = Some text →
  idx !! trim text = Some childData →
  childData !! "Weekly Total" = Some w →
  includes "/" w = true →
  operator i (split "/"%char w) = SkipRow →
  reported (runB (row :: rest) i idx n) = 0
  ∧ rowsOut (runB (row :: rest) i idx n) = withHighlight pending row :: rest.
Proof.
  intros Hcell Hidx Hw Hslash Hskip. simpl.
  rewrite Hcell, Hidx, Hw, (needsChoice_slash w Hslash). simpl orEmpty.
  rewrite Hskip. simpl.
  destruct (second_empty_index rest (S i) 0) as (-> & -> & _). done.
Qed.

End Second.

(** C3 on the second script of part_001: three rows, the second with the
    weekly total 20/25.  Choosing a value reports 3 records; skipping
    should report 2, as the first script does, but reports 0 and leaves
    the third row unfilled. *)
Lemma second_script_skip_loses_count :
  let idx := indexByChick [oneTotal; twoTotals] in
  let rows := [sheetRow "B7"; sheetRow "A12"; sheetRow "B7"] in
  let selected := Part001b.processRowsSequentially alwaysFirst rows 0 idx 0 in
  let skipped := Part001b.processRowsSequentially alwaysSkip rows 0 idx 0 in
  let skippedFirst := Part001a.processRowsSequentially alwaysSkip idx rows 0 0 in
  trace selected !! 1%nat = Some (Prompted ["20"; "25"] (Select 0))
  ∧ reported selected = 3
  ∧ reported skippedFirst = 2
  ∧ reported skipped = 0
  ∧ weekly_total <$> rowsOut skipped = [Some "10"; Some ""; Some ""]
  ∧ weekly_total <$> rowsOut skippedFirst = [Some "10"; Some ""; Some "10"]
  ∧ weekly_total <$> rowsOut selected = [Some "10"; Some "20"; Some "10"].
Proof. repeat split; by_evaluation. Qed.

End SheetFacts.

(** ** The claims about the traversals *)

Module TraversalFacts.
Import Js JsDate Form Samples FormFacts IndexFacts.

Lemma indexed_buckets data idx :
  indexRecords ∅ data = Some idx →
  ∀ key, bucket idx key = filter (λ c, keyOf c = Some key) data.
Proof.
  intros Hidx key.
  assert (Forall (λ r, is_Some (keyOf r)) data) as Hall.
  { apply Forall_forall. intros r Hr.
    destruct (keyOf r) eqn:E; [eauto|].
    assert (indexRecords ∅ data = None) as Hn; [|congruence].
    apply indexRecords_throws, Exists_exists. eauto. }
  destruct (indexRecords_buckets ∅ data Hall) as (idx' & Hidx' & Hb & _).
  rewrite Hidx in Hidx'. injection Hidx' as <-.
  rewrite Hb. unfold bucket at 1. by rewrite lookup_empty.
Qed.

(** C1, amended.  In part_000, for an index built from [data] and any
    rows: the count of matched rows is the number of rows filled and never
    exceeds the number of rows; for every key the records written into the
    rows of that key are a sub-multiset of the source records with that
    key, so no record is written twice and the matched rows of a key never
    outnumber its records; a written record sits in a row with a key; and
    once the traversal has emptied the bucket of a key, every later row
    with that key finds no candidate and keeps its inputs.  In
    browser-autofiller.js no record ever leaves its bucket: the count
    never exceeds the number of rows, and every row whose key has a record
    is filled, however many rows share the key. *)
Theorem consumption_bounds tz implParse clock
    (data : list (gmap string string)) (rows : list Row) idx :
  indexRecords ∅ data = Some idx →
  let r := Part000.processNextRow tz implParse clock (indexed idx) rows 0 None in
  let r0 := BrowserAutofiller.processNextRow (indexed idx) rows in
  totalMatches (final r) = matchedRows (trace r)
  ∧ matchedRows (trace r) ≤ length rows
  ∧ (∀ key, fillsFor key rows (trace r) ⊆+ filter (λ c, keyOf c = Some key) data
            ∧ length (fillsFor key rows (trace r))
              ≤ length (filter (λ c, keyOf c = Some key) data))
  ∧ (∀ j c, trace r !! j = Some (Filled c) →
            ∃ row key, rows !! j = Some row ∧ rowKey row = Some key)
  ∧ (∀ key rows1 rows2, rows = rows1 ++ rows2 →
       let r1 := Part000.processNextRow tz implParse clock (indexed idx) rows1 0 None in
       status r1 = Returned →
       bucket (childrenByChickAndEnd (final r1)) key = [] →
       ∀ j row, rows2 !! j = Some row → rowKey row = Some key →
         (trace r !! (length rows1 + j) = Some NoCandidate
          ∨ trace r !! (length rows1 + j) = None)
         ∧ ∃ row', rowsOut r !! (length rows1 + j) = Some row'
                   ∧ sameInputs row row' ∧ look row' = look row
                   ∧ badges row' = badges row)
  ∧ totalMatches (final r0) = matchedRows (trace r0)
  ∧ matchedRows (trace r0) ≤ length rows
  ∧ childrenByChickAndEnd (final r0) = idx
  ∧ (∀ j row key, rows !! j = Some row → rowKey row = Some key →
       bucket idx key ≠ [] →
       ∃ c, trace r0 !! j = Some (Filled c) ∧ c ∈ bucket idx key).
Proof.
  intros Hidx r r0.
  pose proof (indexed_buckets data idx Hidx) as Hb.
  destruct (Part000Facts.run_matches tz implParse clock rows (indexed idx) 0 None)
    as [Hm Hle].
  destruct (BrowserAutofillerFacts.plain_run_matches rows (indexed idx))
    as [Hm0 Hle0].
  destruct (BrowserAutofillerFacts.plain_run_index rows (indexed idx))
    as (Hi0 & _ & _).
  assert (∀ key, fillsFor key rows (trace r)
                 ⊆+ filter (λ c, keyOf c = Some key) data) as Hsub.
  { intros key. rewrite <- Hb.
    pose proof (Part000Facts.run_buckets tz implParse clock key rows
                  (indexed idx) 0 None) as Hp.
    simpl in Hp. fold r in Hp. rewrite Hp. by apply submseteq_inserts_r. }
  split; [exact Hm|]. split; [exact Hle|]. split; [|split; [|split]].
  - intros key. split; [apply Hsub|]. apply submseteq_length, Hsub.
  - intros j c. apply Part000Facts.run_filled_from.
  - intros key rows1 rows2 -> r1 Hs Hempty j row Hj Hkey.
    unfold r. rewrite (Part000Facts.run_app tz implParse clock) by done.
    fold r1. simpl.
    destruct (Part000Facts.run_length tz implParse clock rows1 (indexed idx) 0 None)
      as [Hlen Htr]. fold r1 in Hlen, Htr. specialize (Htr Hs).
    rewrite !lookup_app_r by lia.
    replace (length rows1 + j - length (trace r1)) with j by lia.
    replace (length rows1 + j - length (rowsOut r1)) with j by lia.
    destruct (Part000Facts.run_exhausted tz implParse clock key rows2 (final r1)
                (length rows1) (lastChick None rows1) Hempty) as [_ Hrows].
    by apply Hrows.
  - split; [exact Hm0|]. split; [exact Hle0|]. split; [exact Hi0|].
    intros j row key Hj Hkey Hne.
    destruct (BrowserAutofillerFacts.plain_run_fills rows (indexed idx) j row key
                Hj Hkey Hne) as (c & Hc & Hin & _).
    eauto.
Qed.

Lemma consumption_bounds_witness :
  let rows := [sampleRow; sampleRowOctober; sampleRow] in
  let r := Part000.processNextRow 0 sampleHost sampleClock
             (indexed {[ "A12|31/12/2025" := [september; october] ]}) rows 0 None in
  matchedRows (trace r) ≤ 3
  ∧ totalMatches (final r) = 2
  ∧ trace r = [Filled september; Filled october; NoCandidate].
Proof.
  intros rows r.
  assert (indexRecords ∅ [september; october]
          = Some {[ "A12|31/12/2025" := [september; october] ]}) as Hidx
    by by_evaluation.
  destruct (consumption_bounds 0 sampleHost sampleClock _ rows _ Hidx)
    as (_ & Hle & _).
  split; [exact Hle|]. split; by_evaluation.
Defined.

(** In browser-autofiller.js one record fills both rows that share its
    key: two rows are marked matched with a single source record. *)
Lemma one_record_fills_two_rows :
  let rows := [sampleRow; sampleRow] in
  let r0 := BrowserAutofiller.processNextRow
              (indexed {[ "A12|31/12/2025" := [september] ]}) rows in
  indexRecords ∅ [september] = Some {[ "A12|31/12/2025" := [september] ]}
  ∧ filter (λ c, keyOf c = Some "A12|31/12/2025") [september] = [september]
  ∧ totalMatches (final r0) = 2
  ∧ fillsFor "A12|31/12/2025" rows (trace r0) = [september; september].
Proof. repeat split; by_evaluation. Qed.

(** What holds of the tie-break of part_000.  At a row whose key has
    more than one candidate, the record passed to [fillFields] is the first candidate whose trimmed Funding
    Start equals the row's trimmed start field, or the first candidate of
    the bucket when none does; the candidates are the records of that key
    not yet consumed, in the order of the input; the row's three inputs
    are written from the picked record, and when the fill returns, that
    record (and no other) leaves the bucket, the row counts as matched and
    the traversal goes on with the next row. *)
Theorem tie_break_picks tz implParse clock st row rest i previousChick
    chick claimUntil :
  keyParts row = Some (chick, claimUntil) →
  1 < length (bucket (childrenByChickAndEnd st) (chick +:+ "|" +:+ claimUntil)) →
  let key := chick +:+ "|" +:+ claimUntil in
  let candidates := bucket (childrenByChickAndEnd st) key in
  let startValue := trim <$> date_from row in
  let r := Part000.processNextRow tz implParse clock st (row :: rest) i
             previousChick in
  (∀ data idx earlier i0 previous0,
     indexRecords ∅ data = Some idx →
     st = final (Part000.processNextRow tz implParse clock (indexed idx)
                   earlier i0 previous0) →
     candidates `sublist_of` filter (λ c, keyOf c = Some key) data)
  ∧ ∃ p c,
    candidates !! p = Some c
    ∧ (trim <$> c !! "Funding Start" = startValue
       ∧ (∀ q c', q < p → candidates !! q = Some c' →
                  trim <$> c' !! "Funding Start" ≠ startValue)
       ∨ p = 0
         ∧ Forall (λ c', trim <$> c' !! "Funding Start" ≠ startValue) candidates)
    ∧ (trace r !! 0 = Some (Filled c) ∨ trace r !! 0 = Some (Stopped c))
    ∧ (∃ row', rowsOut r !! 0 = Some row' ∧ writtenFrom c row row')
    ∧ ((Part000.fillFields tz implParse (clock i)
          (bordered previousChick chick row) c).2 = Returned →
       r = andThen
             (Part000.fillFields tz implParse (clock i)
                (bordered previousChick chick row) c).1
             (Filled c)
             (Part000.processNextRow tz implParse clock
                (Part000.consume st key (delete p candidates))
                rest (S i) (Some chick))
       ∧ bucket (childrenByChickAndEnd
                   (Part000.consume st key (delete p candidates))) key
         = delete p candidates
       ∧ totalMatches (Part000.consume st key (delete p candidates))
         = S (totalMatches st)).
Proof.
  intros Hk Hlen key candidates startValue r.
  split.
  { intros data idx earlier i0 previous0 Hidx ->.
    rewrite <- (indexed_buckets data idx Hidx key).
    apply (Part000Facts.run_sublist tz implParse clock key earlier (indexed idx)). }
  destruct (chosen startValue candidates) as [c|] eqn:Hc.
  2:{ apply chosen_None in Hc. fold key candidates in Hlen.
      rewrite Hc in Hlen. simpl in Hlen. lia. }
  destruct (chosen_Some _ _ _ Hc) as (p & Hp & Hsplice & Hcase).
  exists p, c. split; [done|]. split.
  { destruct Hcase as [[H1 _]|[(_ & H2 & H3)|(_ & H2 & H3)]].
    - fold key candidates in Hlen. lia.
    - by left.
    - by right. }
  unfold r.
  rewrite (Part000Facts.step_fill tz implParse clock st row rest i previousChick
             chick claimUntil c Hk Hc).
  fold key candidates. rewrite Hsplice.
  pose proof (Part000Facts.fill_written tz implParse (clock i)
                (bordered previousChick chick row) c) as Hw.
  assert (∀ row', writtenFrom c (bordered previousChick chick row) row' →
                  writtenFrom c row row') as Hwr.
  { intros row' (H1 & H2 & H3).
    destruct (bordered_inputs previousChick chick row) as (E1 & E2 & E3).
    unfold writtenFrom. by rewrite H1, H2, H3, E1, E2, E3. }
  destruct (Part000.fillFields tz implParse (clock i)
              (bordered previousChick chick row) c) as [row' s] eqn:Hf.
  simpl in Hw. destruct s; simpl.
  - split; [by left|]. split; [eauto|]. intros _.
    split; [done|]. split; [apply IndexFacts.bucket_insert_eq|done].
  - split; [by right|]. split; [eauto|]. done.
  - split; [by right|]. split; [eauto|]. done.
Qed.

Lemma tie_break_picks_witness :
  let st := indexed {[ "A12|31/12/2025" := [september; october] ]} in
  let r := Part000.processNextRow 0 sampleHost sampleClock st
             [sampleRowOctober; sampleRow] 0 None in
  (∃ p c, bucket (childrenByChickAndEnd st) "A12|31/12/2025" !! p = Some c
          ∧ (trace r !! 0 = Some (Filled c) ∨ trace r !! 0 = Some (Stopped c)))
  ∧ trace r = [Filled october; Filled september]
  ∧ date_from <$> rowsOut r = [Some "01/10/2025"; Some "01/09/2025"]
  ∧ totalMatches (final r) = 2.
Proof.
  intros st r. split; [|repeat split; by_evaluation].
  assert (keyParts sampleRowOctober = Some ("A12", "31/12/2025")) as Hk
    by by_evaluation.
  assert (1 < length (bucket (childrenByChickAndEnd st) ("A12" +:+ "|" +:+ "31/12/2025")))
    as Hlen by (vm_compute; lia).
  destruct (tie_break_picks 0 sampleHost sampleClock st sampleRowOctober
              [sampleRow] 0 None "A12" "31/12/2025" Hk Hlen)
    as (_ & p & c & Hp & _ & Ht & _).
  exists p, c. split; [exact Hp|exact Ht].
Defined.

(** C2 on part_000: a key with two candidates, one of them with an empty
    Funding Start.  At a row whose start field is empty that record is
    picked as the exact match; at a row whose start field matches neither
    it is picked as the first of the bucket.  Either way its values are
    written into the row, and then [fillFields] never returns (the holiday
    lookup of the invalid start date does not end): the record stays in
    its bucket, the row is not counted and the next row is never
    reached. *)
Lemma picked_record_not_consumed :
  let key := "A12|31/12/2025" in
  let exact :=
    Part000.processNextRow 0 sampleHost sampleClock
      (indexed {[ key := [september; undated] ]})
      [sampleRow; sampleRowOctober] 0 None in
  let fallback :=
    Part000.processNextRow 0 sampleHost sampleClock
      (indexed {[ key := [undated; september] ]})
      [sampleRowOctober; sampleRow] 0 None in
  findExact (trim <$> date_from sampleRow) [september; undated] = Some undated
  ∧ trace exact = [Stopped undated]
  ∧ status exact = Hung
  ∧ weekly_total <$> rowsOut exact = [Some "30"; Some ""]
  ∧ hour_rate <$> rowsOut exact = [Some "7.00"; Some ""]
  ∧ bucket (childrenByChickAndEnd (final exact)) key = [september; undated]
  ∧ totalMatches (final exact) = 0
  ∧ findExact (trim <$> date_from sampleRowOctober) [undated; september] = None
  ∧ trace fallback = [Stopped undated]
  ∧ status fallback = Hung
  ∧ weekly_total <$> rowsOut fallback = [Some "30"; Some ""]
  ∧ bucket (childrenByChickAndEnd (final fallback)) key = [undated; september]
  ∧ totalMatches (final fallback) = 0.
Proof.
  intros key exact fallback. unfold key, exact, fallback.
  repeat split; by_evaluation.
Qed.

(** C8.  A row whose identifier input or period-end input is blank
    (absent, empty or white space only) is passed over: the row is left
    exactly as it was, nothing is counted, nothing leaves the index, and
    the traversal is that of the remaining rows. *)
Theorem blank_row_skipped tz implParse clock st row rest i previousChick :
  blankField (chick_number row) ∨ blankField (date_to row) →
  Part000.processNextRow tz implParse clock st (row :: rest) i previousChick
  = andThen row SkippedBlank
      (Part000.processNextRow tz implParse clock st rest (S i) previousChick)
  ∧ BrowserAutofiller.processNextRow st (row :: rest)
    = andThen row SkippedBlank (BrowserAutofiller.processNextRow st rest)
  ∧ (∀ row' e r, final (andThen row' e r) = final r
                 ∧ status (andThen row' e r) = status r
                 ∧ rowsOut (andThen row' e r) = row' :: rowsOut r
                 ∧ matchedRows (trace (andThen row' SkippedBlank r))
                   = matchedRows (trace r)).
Proof.
  intros Hblank. apply keyParts_None in Hblank.
  split; [by apply Part000Facts.step_blank|].
  split; [by apply BrowserAutofillerFacts.plain_step_blank|]. done.
Qed.

Lemma blank_row_skipped_witness :
  let st := indexed {[ "A12|31/12/2025" := [september] ]} in
  Part000.processNextRow 0 sampleHost sampleClock st [blankRow; sampleRow] 0 None
  = andThen blankRow SkippedBlank
      (Part000.processNextRow 0 sampleHost sampleClock st [sampleRow] 1 None)
  ∧ trace (Part000.processNextRow 0 sampleHost sampleClock st
             [blankRow; sampleRow] 0 None)
    = [SkippedBlank; Filled september].
Proof.
  intros st. split; [|by_evaluation].
  apply (blank_row_skipped 0 sampleHost sampleClock st blankRow [sampleRow] 0 None).
  left. vm_compute. reflexivity.
Defined.

(** C10.  No traversal and no fill writes the identifier or the
    period-end input (the cell of the identifier in part_001): row by row,
    the rows a traversal leaves hold the key fields, and so the key, they
    started with. *)
Theorem key_fields_never_written :
  (∀ tz implParse now row data,
     sameKeyFields row (Part000.fillFields tz implParse now row data).1)
  ∧ (∀ row data, sameKeyFields row (BrowserAutofiller.fillFields row data))
  ∧ (∀ row childData weeklyTotalValue,
       Sheet.chickCell (Sheet.fillRowData row childData weeklyTotalValue)
       = Sheet.chickCell row)
  ∧ (∀ tz implParse clock st rows i previousChick,
       Forall2 (λ row row', sameKeyFields row row' ∧ rowKey row' = rowKey row)
         rows
         (rowsOut (Part000.processNextRow tz implParse clock st rows i
                     previousChick)))
  ∧ (∀ st rows,
       Forall2 (λ row row', sameKeyFields row row' ∧ rowKey row' = rowKey row)
         rows (rowsOut (BrowserAutofiller.processNextRow st rows)))
  ∧ (∀ operator idx rows i n,
       Forall2 (λ row row', Sheet.chickCell row' = Sheet.chickCell row) rows
         (Sheet.rowsOut (Part001a.processRowsSequentially operator idx rows i n)))
  ∧ (∀ operator idx rows i n,
       Forall2 (λ row row', Sheet.chickCell row' = Sheet.chickCell row) rows
         (Sheet.rowsOut (Part001b.processRowsSequentially operator rows i idx n))).
Proof.
  split; [intros; apply Part000Facts.fill_keyFields|].
  split; [done|]. split; [done|].
  split; [|split; [|split]].
  - intros. eapply Forall2_impl; [apply Part000Facts.run_keyFields|].
    intros row row' H. split; [done|]. by apply rowKey_same.
  - intros. eapply Forall2_impl;
      [apply BrowserAutofillerFacts.plain_run_keyFields|].
    intros row row' H. split; [done|]. by apply rowKey_same.
  - intros. apply SheetFacts.first_keeps_cells.
  - intros. apply SheetFacts.second_keeps_cells.
Qed.

End TraversalFacts.

(** ** More on strings: splitting and joining *)

Module SplitFacts.
Import Js.

(** No character of [s] is [c]. *)
Abbreviation without c s := (all (λ a, negb (bool_decide (a = c))) s = true).

Lemma append_nil_r s : s +:+ "" = s.
Proof. induction s as [|a s IH]; [done|]. unfold String.app in *. simpl. by rewrite IH. Qed.

Lemma append_cons a s t : String a s +:+ t = String a (s +:+ t).
Proof. done. Qed.

Lemma append_assoc s t u : (s +:+ t) +:+ u = s +:+ t +:+ u.
Proof.
  induction s as [|a s IH]; [done|]. rewrite !append_cons. by rewrite IH.
Qed.

Lemma split_nonempty sep s : split sep s ≠ [].
Proof.
  destruct s as [|a s]; simpl; [done|].
  destruct (decide (a = sep)); [done|]. by destruct (split sep s).
Qed.

(** Splitting at the first separator. *)
Lemma split_app_sep sep a b :
  without sep a →
  split sep (a +:+ String sep b) = a :: split sep b.
Proof.
  induction a as [|x a IH]; intros Ha.
  - simpl. unfold String.app. simpl. by rewrite decide_True.
  - simpl in Ha. apply andb_true_iff in Ha as [Hx Ha].
    apply negb_true_iff, bool_decide_eq_false in Hx.
    rewrite append_cons. simpl. rewrite decide_False by done.
    by rewrite (IH Ha).
Qed.

(** Joining what was split gives the text back. *)
Lemma join_split sep s : join (String sep "") (split sep s) = s.
Proof.
  induction s as [|a s IH]; [done|]. simpl.
  destruct (decide (a = sep)) as [->|Hne].
  - pose proof (split_nonempty sep s) as Hne.
    destruct (split sep s) as [|p ps] eqn:E; [done|].
    change (join (String sep "") ("" :: p :: ps))
      with ("" +:+ String sep "" +:+ join (String sep "") (p :: ps)).
    rewrite IH. done.
  - destruct (split sep s) as [|p ps] eqn:E.
    + by destruct (split_nonempty sep s).
    + destruct ps as [|q ps].
      * simpl in *. by rewrite IH.
      * change (join (String sep "") (String a p :: q :: ps))
          with (String a p +:+ String sep "" +:+ join (String sep "") (q :: ps)).
        change (join (String sep "") (p :: q :: ps))
          with (p +:+ String sep "" +:+ join (String sep "") (q :: ps)) in IH.
        rewrite append_cons. by rewrite IH.
Qed.

Lemma includes_char_app c a b :
  includes (String c "") (a +:+ String c b) = true.
Proof.
  induction a as [|x a IH].
  - unfold String.app. simpl. by rewrite bool_decide_eq_true_2.
  - rewrite append_cons. simpl. rewrite IH. apply orb_true_r.
Qed.

Lemma includes_char_without c s :
  without c s → includes (String c "") s = false.
Proof.
  induction s as [|x s IH]; [done|]. simpl.
  intros [Hx Hs]%andb_true_iff. rewrite (IH Hs).
  apply negb_true_iff, bool_decide_eq_false in Hx.
  rewrite bool_decide_eq_false_2 by congruence. done.
Qed.

Lemma app_nonempty a c b : a +:+ String c b ≠ "".
Proof. destruct a; done. Qed.

End SplitFacts.

(** * Further properties of the scripts *)

(** ** Indexing a text *)

Module UploadFacts.
Import Js Csv Form Samples CsvFacts IndexFacts.

Lemma lineRecord_keyOf headers line :
  keyOf (lineRecord headers line) = None
  ↔ "CHICK" ∉ headers ∨ "Claim Until" ∉ headers.
Proof.
  unfold keyOf, lineRecord.
  destruct (decide ("CHICK" ∈ headers)) as [H1|H1];
    destruct (decide ("Claim Until" ∈ headers)) as [H2|H2].
  - destruct (buildRow_present headers (lineValues line) _ H1) as (i & _ & ->).
    destruct (buildRow_present headers (lineValues line) _ H2) as (j & _ & ->).
    split; [done|]. tauto.
  - destruct (buildRow_present headers (lineValues line) _ H1) as (i & _ & ->).
    rewrite (buildRow_absent headers (lineValues line) _ H2). tauto.
  - rewrite (buildRow_absent headers (lineValues line) _ H1). tauto.
  - rewrite (buildRow_absent headers (lineValues line) _ H1). tauto.
Qed.

(** X1.  In browser-autofiller.js and part_000 the indexing of a parsed
    text ends with a TypeError exactly when the text has a line after the
    header and the header lacks the name CHICK or the name Claim Until;
    otherwise every record is indexed. *)
Theorem upload_throws_iff
    (m : gmap string (list (gmap string string))) (csv : string) :
  indexRecords m (parseCSV_trimmed csv) = None
  ↔ drop 1 (split LF (trim csv)) ≠ []
    ∧ ("CHICK" ∉ headerNames (split LF (trim csv))
       ∨ "Claim Until" ∉ headerNames (split LF (trim csv))).
Proof.
  rewrite indexRecords_throws. unfold parseCSV_trimmed.
  rewrite Exists_fmap. split.
  - intros (line & Hin & Hk)%Exists_exists. split.
    + intros Hnil. rewrite Hnil in Hin. by apply elem_of_nil in Hin.
    + simpl in Hk. by apply lineRecord_keyOf in Hk.
  - intros [Hne Hh]. destruct (drop 1 (split LF (trim csv))) as [|line rest]; [done|].
    apply Exists_cons. left. simpl. by apply lineRecord_keyOf.
Qed.

(** X2.  Indexing never empties or reorders a bucket: the records of a
    key that were in the index stay in front, and the new records of that
    key follow in the order of the input.  (part_000 and
    browser-autofiller.js keep the index between two uploads.) *)
Theorem upload_appends
    (m : gmap string (list (gmap string string)))
    (data : list (gmap string string)) :
  Forall (λ r, is_Some (r !! "CHICK") ∧ is_Some (r !! "Claim Until")) data →
  ∃ idx, indexRecords m data = Some idx
    ∧ ∀ key, bucket idx key
             = bucket m key ++ filter (λ r, keyOf r = Some key) data.
Proof.
  intros Hall.
  destruct (indexRecords_buckets m data) as (idx & Hidx & Hb & _); [|eauto].
  eapply Forall_impl; [done|]. intros r. apply keyOf_is_Some.
Qed.

Lemma upload_appends_witness :
  ∃ idx, indexRecords {[ "A12|31/12/2025" := [september] ]} [october] = Some idx
    ∧ bucket idx "A12|31/12/2025" = [september; october].
Proof.
  destruct (upload_appends {[ "A12|31/12/2025" := [september] ]} [october])
    as (idx & Hidx & Hb).
  { repeat (constructor; [split; eexists; vm_compute; reflexivity|]).
    constructor. }
  exists idx. split; [exact Hidx|]. rewrite Hb. by_evaluation.
Defined.

(** X3.  The two parsers agree on a text without outer white space and
    without a blank line after the header. *)
Theorem parsers_agree (csv : string) :
  trim csv = csv →
  Forall (λ line, trim line ≠ "") (drop 1 (split LF csv)) →
  parseCSV_filtered csv = parseCSV_trimmed csv.
Proof.
  intros Htrim Hall. unfold parseCSV_filtered, parseCSV_trimmed.
  rewrite Htrim. f_equal.
  induction (drop 1 (split LF csv)) as [|line rest IH]; [done|].
  apply Forall_cons in Hall as [Hline Hrest].
  rewrite filter_cons, decide_True by done. by rewrite IH.
Qed.

Lemma parsers_agree_witness :
  parseCSV_filtered ("CHICK,Claim Until" +:+ nl +:+ "A12,31/12/2025")
  = parseCSV_trimmed ("CHICK,Claim Until" +:+ nl +:+ "A12,31/12/2025").
Proof.
  apply parsers_agree; [by_evaluation|].
  repeat (constructor; [vm_compute; discriminate|]). constructor.
Defined.

End UploadFacts.

(** ** part_000: where a traversal stops, borders, and what fills a row *)

Module RowFacts.
Import Js JsDate Form Part000 Describe Samples FormFacts IndexFacts SplitFacts.

Ltac walk_row tz implParse clock st row rest i prev :=
  let chick := fresh "chick" in
  let cu := fresh "claimUntil" in
  let Hk := fresh "Hk" in
  let c := fresh "c" in
  let Hc := fresh "Hc" in
  let row' := fresh "row'" in
  let Hf := fresh "Hf" in
  destruct (keyParts row) as [[chick cu]|] eqn:Hk;
  [ destruct (chosen (trim <$> date_from row)
       (bucket (childrenByChickAndEnd st) (chick +:+ "|" +:+ cu)))
      as [c|] eqn:Hc;
    [ rewrite (Part000Facts.step_fill tz implParse clock st row rest i prev
                 chick cu c Hk Hc);
      destruct (fillFields tz implParse (clock i) (bordered prev chick row) c)
        as [row' []] eqn:Hf
    | apply chosen_None in Hc;
      rewrite (Part000Facts.step_empty tz implParse clock st row rest i prev
                 chick cu Hk Hc) ]
  | rewrite (Part000Facts.step_blank tz implParse clock st row rest i prev Hk) ].

Lemma fill_borderTop tz implParse now row c :
  borderTop (fillFields tz implParse now row c).1 = borderTop row.
Proof.
  unfold fillFields.
  destruct (c !! "Funding Start"), (c !! "Claim Until"); try done.
  cbn [badges withLook writeInputs withInputs].
  destruct (badges row); [|done]. by destruct (getHolidayName _ _ _).
Qed.

Lemma bordered_badges prev chick row : badges (bordered prev chick row) = badges row.
Proof. unfold bordered. by destruct (decide _). Qed.

Lemma fill_stopReason tz implParse now row c s :
  (fillFields tz implParse now row c).2 = s → s ≠ Returned →
  stopReason implParse s row c.
Proof.
  rewrite FillFacts.fill_status. unfold stopReason.
  destruct (c !! "Funding Start") as [fs|], (c !! "Claim Until") as [cu|];
    try (intros <- _; tauto || eauto; fail).
  destruct (badges row) as [bs|]; [|by intros <- H].
  destruct (parseDate implParse fs) eqn:E; [by intros <- H|].
  intros <- _. eauto 10.
Qed.

(** A traversal either reaches the end, with one event per row and no
    fill that failed, or stops at the first fill that does not return: the
    events end there, and the rows after it are as they were. *)
Lemma run_outcome tz implParse clock rows : ∀ st i prev,
  let r := processNextRow tz implParse clock st rows i prev in
  status r = Returned ∧ length (trace r) = length rows
    ∧ Forall (λ e, ∀ c, e ≠ Stopped c) (trace r)
  ∨ ∃ j c row,
      status r ≠ Returned ∧ length (trace r) = S j
      ∧ trace r !! j = Some (Stopped c) ∧ rows !! j = Some row
      ∧ drop (S j) (rowsOut r) = drop (S j) rows
      ∧ (∃ row', rowsOut r !! j = Some row' ∧ writtenFrom c row row')
      ∧ stopReason implParse (status r) row c.
Proof.
  induction rows as [|row rest IH]; intros st i prev; [left; done|].
  assert (∀ r0 row0 e, (∀ c, e ≠ Stopped c) →
    (status r0 = Returned ∧ length (trace r0) = length rest
       ∧ Forall (λ e, ∀ c, e ≠ Stopped c) (trace r0)
     ∨ ∃ j c row1,
         status r0 ≠ Returned ∧ length (trace r0) = S j
         ∧ trace r0 !! j = Some (Stopped c) ∧ rest !! j = Some row1
         ∧ drop (S j) (rowsOut r0) = drop (S j) rest
         ∧ (∃ row', rowsOut r0 !! j = Some row' ∧ writtenFrom c row1 row')
         ∧ stopReason implParse (status r0) row1 c) →
    (status (andThen row0 e r0) = Returned
       ∧ length (trace (andThen row0 e r0)) = length (row :: rest)
       ∧ Forall (λ e, ∀ c, e ≠ Stopped c) (trace (andThen row0 e r0))
     ∨ ∃ j c row1,
         status (andThen row0 e r0) ≠ Returned
         ∧ length (trace (andThen row0 e r0)) = S j
         ∧ trace (andThen row0 e r0) !! j = Some (Stopped c)
         ∧ (row :: rest) !! j = Some row1
         ∧ drop (S j) (rowsOut (andThen row0 e r0)) = drop (S j) (row :: rest)
         ∧ (∃ row', rowsOut (andThen row0 e r0) !! j = Some row'
                    ∧ writtenFrom c row1 row')
         ∧ stopReason implParse (status (andThen row0 e r0)) row1 c)) as Hstep.
  { intros r0 row0 e He [(Hs & Hl & Hall)|(j & c & row1 & H)].
    - left. simpl. split; [done|]. split; [by rewrite Hl|]. by constructor.
    - right. exists (S j), c, row1. simpl. destruct H as (? & -> & ? & ? & ? & ? & ?).
      done. }
  intros r. unfold r. clear r.
  walk_row tz implParse clock st row rest i prev.
  - apply Hstep; [done|apply IH].
  - right. exists 0, c, row. simpl. split; [done|]. split; [done|].
    split; [done|]. split; [done|]. split; [done|].
    pose proof (Part000Facts.fill_written tz implParse (clock i)
                  (bordered prev chick row) c) as (W1 & W2 & W3).
    destruct (bordered_inputs prev chick row) as (E1 & E2 & E3).
    rewrite Hf in W1, W2, W3. simpl in W1, W2, W3. split.
    + eexists. split; [done|]. unfold writtenFrom. by rewrite W1, W2, W3, E1, E2, E3.
    + pose proof (fill_stopReason tz implParse (clock i)
                    (bordered prev chick row) c Threw) as Hr.
      rewrite Hf in Hr. apply Hr; done.
  - right. exists 0, c, row. simpl. split; [done|]. split; [done|].
    split; [done|]. split; [done|]. split; [done|].
    pose proof (Part000Facts.fill_written tz implParse (clock i)
                  (bordered prev chick row) c) as (W1 & W2 & W3).
    destruct (bordered_inputs prev chick row) as (E1 & E2 & E3).
    rewrite Hf in W1, W2, W3. simpl in W1, W2, W3. split.
    + eexists. split; [done|]. unfold writtenFrom. by rewrite W1, W2, W3, E1, E2, E3.
    + pose proof (fill_stopReason tz implParse (clock i)
                    (bordered prev chick row) c Hung) as Hr.
      rewrite Hf in Hr. specialize (Hr eq_refl).
      unfold stopReason in Hr |- *. rewrite bordered_badges in Hr.
      apply Hr. done.
  - apply Hstep; [done|apply IH].
  - apply Hstep; [done|apply IH].
Qed.

(** The border of the first row of a traversal. *)
Lemma head_border tz implParse clock st row rest i prev :
  ∃ row', rowsOut (processNextRow tz implParse clock st (row :: rest) i prev) !! 0
          = Some row'
    ∧ borderTop row'
      = match keyParts row with
        | Some (chick, _) =>
            if decide (Some chick ≠ prev) then true else borderTop row
        | None => borderTop row
        end.
Proof.
  assert (∀ chick, borderTop (bordered prev chick row)
                   = if decide (Some chick ≠ prev) then true else borderTop row)
    as Hb.
  { intros chick. unfold bordered. by destruct (decide _). }
  walk_row tz implParse clock st row rest i prev; simpl; eexists; (split; [done|]).
  all: try (rewrite <- Hb; pose proof (fill_borderTop tz implParse (clock i)
              (bordered prev chick row) c) as H; by rewrite Hf in H).
  - apply Hb.
  - done.
Qed.

(** Whatever holds of every record of every bucket holds of a record
    written into a row, with the row's key. *)
Lemma run_filled_inv tz implParse clock (Q : string → gmap string string → Prop)
    rows : ∀ st i prev j c,
  (∀ key c', c' ∈ bucket (childrenByChickAndEnd st) key → Q key c') →
  trace (processNextRow tz implParse clock st rows i prev) !! j = Some (Filled c) →
  ∃ row key, rows !! j = Some row ∧ rowKey row = Some key ∧ Q key c.
Proof.
  induction rows as [|row rest IH]; intros st i prev j c HQ; [done|].
  walk_row tz implParse clock st row rest i prev; simpl; destruct j as [|j];
    simpl; try done.
  - intros [= <-].
    apply keyParts_Some in Hk as (_ & _ & _ & _ & Hrk).
    exists row, (chick +:+ "|" +:+ claimUntil). split; [done|]. split; [done|].
    apply HQ. destruct (chosen_Some _ _ _ Hc) as (p & Hp & _).
    by eapply list_elem_of_lookup_2.
  - apply IH. intros key c' Hin. apply HQ.
    destruct (decide (chick +:+ "|" +:+ claimUntil = key)) as [<-|Hne].
    + rewrite Part000Facts.bucket_consume_eq in Hin.
      eapply sublist_subseteq; [apply spliceOut_sublist|done].
    + by rewrite Part000Facts.bucket_consume_ne in Hin.
  - by apply IH.
  - by apply IH.
Qed.

Lemma plain_run_filled_inv (Q : string → gmap string string → Prop) rows :
  ∀ st j c,
  (∀ key c', c' ∈ bucket (childrenByChickAndEnd st) key → Q key c') →
  trace (BrowserAutofiller.processNextRow st rows) !! j = Some (Filled c) →
  ∃ row key, rows !! j = Some row ∧ rowKey row = Some key ∧ Q key c.
Proof.
  induction rows as [|row rest IH]; intros st j c HQ; [done|].
  destruct (keyParts row) as [[chick claimUntil]|] eqn:Hk.
  - destruct (chosen (trim <$> date_from row)
       (bucket (childrenByChickAndEnd st) (chick +:+ "|" +:+ claimUntil)))
      as [c0|] eqn:Hc.
    + rewrite (BrowserAutofillerFacts.plain_step_fill st row rest chick
                 claimUntil c0 Hk Hc).
      destruct j as [|j]; simpl.
      * intros [= <-].
        apply keyParts_Some in Hk as (_ & _ & _ & _ & Hrk).
        exists row, (chick +:+ "|" +:+ claimUntil). split; [done|]. split; [done|].
        apply HQ. destruct (chosen_Some _ _ _ Hc) as (p & Hp & _).
        by eapply list_elem_of_lookup_2.
      * by apply IH.
    + apply chosen_None in Hc.
      rewrite (BrowserAutofillerFacts.plain_step_empty st row rest chick
                 claimUntil Hk Hc).
      destruct j as [|j]; simpl; [done|]. by apply IH.
  - rewrite (BrowserAutofillerFacts.plain_step_blank st row rest Hk).
    destruct j as [|j]; simpl; [done|]. by apply IH.
Qed.

(** A key splits in one way only into parts of which the first has no
    bar. *)
Lemma key_parts_inj a b a' b' :
  without "|"%char a → without "|"%char a' →
  a +:+ "|" +:+ b = a' +:+ "|" +:+ b' → a = a' ∧ b = b'.
Proof.
  revert a'. induction a as [|x a IH]; intros [|x' a'] Ha Ha'.
  - unfold String.app. simpl. by intros [= ->].
  - unfold String.app. simpl. intros [= <- _]. simpl in Ha'.
    try rewrite bool_decide_eq_true_2 in Ha' by done. done.
  - unfold String.app. simpl. intros [= -> _]. simpl in Ha.
    try rewrite bool_decide_eq_true_2 in Ha by done. done.
  - rewrite !append_cons. intros [= <- H].
    simpl in Ha, Ha'. apply andb_true_iff in Ha as [_ Ha].
    apply andb_true_iff in Ha' as [_ Ha'].
    destruct (IH a' Ha Ha' H) as [-> ->]. done.
Qed.

End RowFacts.

Module FormProps.
Import Js JsDate Form Part000 Describe Samples FormFacts IndexFacts SplitFacts
  RowFacts.

Lemma sameKey_intro row c chick claimUntil :
  keyParts row = Some (chick, claimUntil) →
  keyOf c = Some (chick +:+ "|" +:+ claimUntil) →
  sameKey row c.
Proof.
  intros Hk Hc. exists chick, claimUntil. split; [done|]. split; [done|].
  intros rc ru H1 H2 Hb Hb'. rewrite (keyOf_fields c rc ru H1 H2) in Hc.
  injection Hc as Hc. by apply key_parts_inj.
Qed.

Lemma rowKey_sameKey row c : rowKey row = keyOf c → is_Some (rowKey row) → sameKey row c.
Proof.
  unfold rowKey. destruct (keyParts row) as [[chick cu]|] eqn:Hk; simpl.
  - intros H _. by eapply sameKey_intro.
  - by intros _ [? ?].
Qed.

Lemma fresh_index_buckets data idx key c :
  indexRecords ∅ data = Some idx → c ∈ bucket idx key →
  keyOf c = Some key ∧ c ∈ data.
Proof.
  intros Hidx Hin.
  assert (Forall (λ r, is_Some (keyOf r)) data) as Hall.
  { apply Forall_forall. intros r Hr.
    destruct (keyOf r) eqn:E; [by eexists|].
    assert (indexRecords ∅ data = None) as Hn
      by (apply indexRecords_throws, Exists_exists; eauto).
    congruence. }
  destruct (indexRecords_buckets ∅ data Hall) as (idx' & Hidx' & Hb & _).
  assert (idx' = idx) as -> by congruence.
  rewrite Hb in Hin. unfold bucket at 1 in Hin. rewrite lookup_empty in Hin.
  simpl in Hin. by apply list_elem_of_filter in Hin.
Qed.

(** X4.  How part_000's fillFields ends.  The three inputs are written
    in every case.  The call throws exactly when the record lacks Funding
    Start or Claim Until, and never returns exactly when the row has a last
    cell and the record's Funding Start does not parse to a valid date. *)
Theorem fill_ends (tz : Z) (implParse : string → Date) (now : Z)
    (row : Row) (c : gmap string string) :
  let r := fillFields tz implParse now row c in
  writtenFrom c row r.1
  ∧ (r.2 = Threw ↔ c !! "Funding Start" = None ∨ c !! "Claim Until" = None)
  ∧ (r.2 = Hung ↔
       is_Some (badges row) ∧ is_Some (c !! "Claim Until")
       ∧ ∃ fundingStart, c !! "Funding Start" = Some fundingStart
                         ∧ parseDate implParse fundingStart = Invalid).
Proof.
  intros r. unfold r. split; [apply Part000Facts.fill_written|].
  rewrite FillFacts.fill_status.
  destruct (c !! "Funding Start") as [fs|], (c !! "Claim Until") as [cu|].
  - destruct (badges row) as [bs|], (parseDate implParse fs) eqn:E.
    + split; split; try done.
      * by intros [|].
      * intros (_ & _ & fs' & [= <-] & H). congruence.
    + split; split; try done.
      * by intros [|].
      * intros _. eauto 10.
    + split; split; try done.
      * by intros [|].
      * by intros ([? ?] & _).
    + split; split; try done.
      * by intros [|].
      * by intros ([? ?] & _).
  - split; split; try done; try (by right).
    by intros (_ & [? ?] & _).
  - split; split; try done; try (by left).
    by intros (_ & _ & ? & ? & _).
  - split; split; try done; try (by left).
    by intros (_ & _ & ? & ? & _).
Qed.

(** X5.  A traversal of part_000 either reaches the end, with one event
    per row and no failed fill, or stops at the first fill that does not
    return: that row has its three inputs written, the rows after it are
    as they were, and the reason is the one fillFields has for not
    returning. *)
Theorem stops_at_first_failure (tz : Z) (implParse : string → Date)
    (clock : nat → Z) (st : State) (rows : list Row) (i : nat)
    (prev : option string) :
  let r := processNextRow tz implParse clock st rows i prev in
  status r = Returned ∧ length (trace r) = length rows
    ∧ Forall (λ e, ∀ c, e ≠ Stopped c) (trace r)
  ∨ ∃ j c row,
      status r ≠ Returned ∧ length (trace r) = S j
      ∧ trace r !! j = Some (Stopped c) ∧ rows !! j = Some row
      ∧ drop (S j) (rowsOut r) = drop (S j) rows
      ∧ (∃ row', rowsOut r !! j = Some row' ∧ writtenFrom c row row')
      ∧ stopReason implParse (status r) row c.
Proof. apply run_outcome. Qed.

(** X6.  The separator of part_000.  A row reached by the traversal has
    its top border set when its identifier differs from the identifier of
    the nearest row before it that has a key (every first such row gets
    one); otherwise, and when its own key is blank, its border is left as
    it was. *)
Theorem border_between_children (tz : Z) (implParse : string → Date)
    (clock : nat → Z) (st : State) (rows1 : list Row) (row : Row)
    (rest : list Row) (i : nat) (prev : option string) :
  status (processNextRow tz implParse clock st rows1 i prev) = Returned →
  ∃ row',
    rowsOut (processNextRow tz implParse clock st (rows1 ++ row :: rest) i prev)
      !! length rows1 = Some row'
    ∧ borderTop row'
      = match keyParts row with
        | Some (chick, _) =>
            if decide (Some chick ≠ lastChick prev rows1) then true
            else borderTop row
        | None => borderTop row
        end.
Proof.
  intros Hs. rewrite Part000Facts.run_app by done. simpl.
  destruct (Part000Facts.run_length tz implParse clock rows1 st i prev) as [Hl _].
  rewrite lookup_app_r by lia. rewrite Hl, Nat.sub_diag.
  apply head_border.
Qed.

Lemma border_between_children_witness :
  ∃ row',
    rowsOut (processNextRow 0 sampleHost sampleClock emptyState
               ([sampleRow] ++ sampleRowOctober :: [blankRow]) 0 None)
      !! 1 = Some row'
    ∧ borderTop row' = false.
Proof.
  destruct (border_between_children 0 sampleHost sampleClock emptyState
              [sampleRow] sampleRowOctober [blankRow] 0 None)
    as (row' & H1 & H2); [by_evaluation|].
  exists row'. split; [exact H1|]. rewrite H2. by_evaluation.
Defined.

(** X7.  In part_000, after an upload into an empty index, a record
    written into a row is one of the uploaded records and has the row's
    key: the trimmed CHICK and Claim Until of the record, joined by a bar,
    are the row's trimmed identifier and end date joined by a bar, and the
    fields agree one by one when the identifiers hold no bar. *)
Theorem filled_record_has_row_key (tz : Z) (implParse : string → Date)
    (clock : nat → Z) (data : list (gmap string string))
    (idx : gmap string (list (gmap string string))) (rows : list Row)
    (i : nat) (prev : option string) (j : nat) (c : gmap string string) :
  indexRecords ∅ data = Some idx →
  trace (processNextRow tz implParse clock (indexed idx) rows i prev) !! j
    = Some (Filled c) →
  c ∈ data ∧ ∃ row, rows !! j = Some row ∧ sameKey row c.
Proof.
  intros Hidx Ht.
  destruct (run_filled_inv tz implParse clock
              (λ key c', keyOf c' = Some key ∧ c' ∈ data)
              rows (indexed idx) i prev j c) as (row & key & Hj & Hk & Hc & Hin).
  - intros key c' Hin. by eapply fresh_index_buckets.
  - done.
  - split; [done|]. exists row. split; [done|].
    apply rowKey_sameKey; [congruence|by rewrite Hk].
Qed.

Lemma filled_record_has_row_key_witness :
  september ∈ [september; october]
  ∧ ∃ row, [sampleRow] !! 0 = Some row ∧ sameKey row september.
Proof.
  apply (filled_record_has_row_key 0 sampleHost sampleClock
           [september; october]
           {[ "A12|31/12/2025" := [september; october] ]}
           [sampleRow] 0 None 0 september); by_evaluation.
Defined.

(** X8.  The same for browser-autofiller.js, whose buckets are never
    consumed. *)
Theorem plain_filled_record_has_row_key (data : list (gmap string string))
    (idx : gmap string (list (gmap string string))) (rows : list Row)
    (j : nat) (c : gmap string string) :
  indexRecords ∅ data = Some idx →
  trace (BrowserAutofiller.processNextRow (indexed idx) rows) !! j
    = Some (Filled c) →
  c ∈ data ∧ ∃ row, rows !! j = Some row ∧ sameKey row c.
Proof.
  intros Hidx Ht.
  destruct (plain_run_filled_inv
              (λ key c', keyOf c' = Some key ∧ c' ∈ data)
              rows (indexed idx) j c) as (row & key & Hj & Hk & Hc & Hin).
  - intros key c' Hin. by eapply fresh_index_buckets.
  - done.
  - split; [done|]. exists row. split; [done|].
    apply rowKey_sameKey; [congruence|by rewrite Hk].
Qed.

Lemma plain_filled_record_has_row_key_witness :
  october ∈ [september; october]
  ∧ ∃ row, [sampleRowOctober] !! 0 = Some row ∧ sameKey row october.
Proof.
  apply (plain_filled_record_has_row_key [september; october]
           {[ "A12|31/12/2025" := [september; october] ]}
           [sampleRowOctober] 0 october); by_evaluation.
Defined.

(** X9.  Traversals of part_000 compose: when the traversal of a prefix
    reaches its end, the traversal of the whole list is that of the prefix
    followed by that of the remaining rows, started from the state the
    prefix left, at the next index, with the identifier of the last keyed
    row of the prefix as the previous one. *)
Theorem traversal_composes (tz : Z) (implParse : string → Date)
    (clock : nat → Z) (st : State) (rows1 rows2 : list Row) (i : nat)
    (prev : option string) :
  let r1 := processNextRow tz implParse clock st rows1 i prev in
  status r1 = Returned →
  processNextRow tz implParse clock st (rows1 ++ rows2) i prev
  = glue r1
      (processNextRow tz implParse clock (final r1) rows2 (i + length rows1)
         (lastChick prev rows1)).
Proof. intros r1 Hs. by apply Part000Facts.run_app. Qed.

Lemma traversal_composes_witness :
  let st := indexed {[ "A12|31/12/2025" := [september; october] ]} in
  let r1 := processNextRow 0 sampleHost sampleClock st [sampleRow] 0 None in
  processNextRow 0 sampleHost sampleClock st
    ([sampleRow] ++ [sampleRowOctober]) 0 None
  = glue r1
      (processNextRow 0 sampleHost sampleClock (final r1) [sampleRowOctober]
         (0 + length [sampleRow]) (lastChick None [sampleRow])).
Proof.
  intros st r1.
  apply (traversal_composes 0 sampleHost sampleClock st
           [sampleRow] [sampleRowOctober] 0 None).
  by_evaluation.
Defined.

End FormProps.

(** ** part_000: dates and badges *)

Module DateProps.
Import Js JsDate Form Part000 Describe Samples SplitFacts.
Local Open Scope Z_scope.

Lemma digitChar_cases (P : ascii → Prop) n :
  P "0"%char → P "1"%char → P "2"%char → P "3"%char → P "4"%char →
  P "5"%char → P "6"%char → P "7"%char → P "8"%char → P "9"%char →
  P (digitChar n).
Proof.
  intros H0 H1 H2 H3 H4 H5 H6 H7 H8 H9. unfold digitChar.
  pose proof (Z.mod_pos_bound n 10 ltac:(lia)) as Hb.
  set (k := n mod 10) in *.
  assert (k = 0 ∨ k = 1 ∨ k = 2 ∨ k = 3 ∨ k = 4 ∨ k = 5 ∨ k = 6 ∨ k = 7
          ∨ k = 8 ∨ k = 9) as Hk by lia.
  destruct Hk as [->|[->|[->|[->|[->|[->|[->|[->|[->| ->]]]]]]]]]; assumption.
Qed.

Lemma digitChar_value n : digitValue (digitChar n) = Some (n mod 10).
Proof.
  unfold digitChar.
  pose proof (Z.mod_pos_bound n 10 ltac:(lia)) as Hb.
  set (k := n mod 10) in *.
  assert (k = 0 ∨ k = 1 ∨ k = 2 ∨ k = 3 ∨ k = 4 ∨ k = 5 ∨ k = 6 ∨ k = 7
          ∨ k = 8 ∨ k = 9) as Hk by lia.
  destruct Hk as [->|[->|[->|[->|[->|[->|[->|[->|[->| ->]]]]]]]]]; reflexivity.
Qed.

Lemma digitChar_plain n c :
  c = "/"%char ∨ c = "-"%char → negb (bool_decide (digitChar n = c)) = true.
Proof.
  intros Hc. apply negb_true_iff, bool_decide_eq_false.
  apply (digitChar_cases (λ a, a ≠ c)); destruct Hc as [-> | ->]; discriminate.
Qed.

Lemma twoDigits_plain n c :
  c = "/"%char ∨ c = "-"%char → without c (twoDigits n).
Proof.
  intros Hc. unfold twoDigits. cbn [all].
  by rewrite !digitChar_plain.
Qed.

Lemma fourDigits_plain n c :
  c = "/"%char ∨ c = "-"%char → without c (fourDigits n).
Proof.
  intros Hc. unfold fourDigits, twoDigits. cbn [all].
  by rewrite !digitChar_plain.
Qed.

Lemma twoDigits_value n : 0 <= n <= 99 → fixedDigits 2 (twoDigits n) = Some n.
Proof.
  intros Hn. unfold fixedDigits, twoDigits. cbn [String.length].
  rewrite decide_True by done. cbn [digitsFrom].
  rewrite !digitChar_value. cbn [digitsFrom]. f_equal.
  Z.div_mod_to_equations. lia.
Qed.

Lemma fourDigits_value n : 0 <= n <= 9999 → fixedDigits 4 (fourDigits n) = Some n.
Proof.
  intros Hn. unfold fixedDigits, fourDigits, twoDigits. cbn [String.length].
  rewrite decide_True by done. cbn [digitsFrom].
  rewrite !digitChar_value. cbn [digitsFrom]. f_equal.
  Z.div_mod_to_equations. lia.
Qed.

Lemma split_three sep a b c :
  without sep a → without sep b → without sep c →
  split sep (a +:+ String sep "" +:+ b +:+ String sep "" +:+ c) = [a; b; c].
Proof.
  intros Ha Hb Hc.
  change (String sep "" +:+ b +:+ String sep "" +:+ c)
    with (String sep (b +:+ String sep c)).
  rewrite split_app_sep by done. rewrite split_app_sep by done.
  by rewrite JsFacts.split_no_sep.
Qed.

(** X10.  A note with a semicolon puts the trimmed text after the first
    semicolon into a badge, unless that text is blank; a note without a
    semicolon gives no badge. *)
Theorem note_badge (data : gmap string string) (note : string) :
  data !! "Note" = Some note →
  (∀ a b, without ";"%char a → note = a +:+ ";" +:+ b →
          noteBadge data = if decide (trim b = "") then [] else [trim b])
  ∧ (without ";"%char note → noteBadge data = []).
Proof.
  intros Hn. unfold noteBadge. rewrite Hn. split.
  - intros a b Ha ->.
    change (a +:+ ";" +:+ b) with (a +:+ String ";" b).
    rewrite includes_char_app, split_app_sep by done.
    unfold truthy at 1. rewrite bool_decide_eq_false_2 by apply app_nonempty.
    cbn [negb andb]. rewrite skipn_cons, drop_0, join_split. unfold truthy.
    destruct (decide (trim b = "")) as [->|Hne]; [done|].
    by rewrite bool_decide_eq_false_2.
  - intros Hs. rewrite includes_char_without by done.
    by rewrite andb_false_r.
Qed.

Lemma note_badge_witness :
  noteBadge {[ "Note" := "Base; sibling discount " ]} = ["sibling discount"].
Proof.
  assert (({[ "Note" := "Base; sibling discount " ]} : gmap string string)
            !! "Note" = Some "Base; sibling discount ") as Hn by by_evaluation.
  destruct (note_badge _ _ Hn) as [H _].
  rewrite (H "Base" " sibling discount " eq_refl eq_refl). by_evaluation.
Defined.

(** X11.  parseDate reads a day written DD/MM/YYYY, with two, two and
    four digits and naming a calendar day, as midnight UTC of that day,
    whatever the host makes of other strings. *)
Theorem parseDate_calendar_day (implParse : string → Date) (y m d : Z) :
  0 <= y <= 9999 → 1 <= m <= 12 →
  1 <= d <= DaysInMonth (InLeapYear y) (m - 1) →
  parseDate implParse (dayText y m d) = Valid (MakeDay y (m - 1) d * msPerDay).
Proof.
  intros Hy Hm Hd.
  assert (d <= 31) as Hd31.
  { destruct Hd as [_ Hd]. revert Hd.
    assert (m = 1 ∨ m = 2 ∨ m = 3 ∨ m = 4 ∨ m = 5 ∨ m = 6 ∨ m = 7 ∨ m = 8
            ∨ m = 9 ∨ m = 10 ∨ m = 11 ∨ m = 12) as Hc by lia.
    destruct Hc as [->|[->|[->|[->|[->|[->|[->|[->|[->|[->|[->| ->]]]]]]]]]]];
      destruct (InLeapYear y); simpl; lia. }
  unfold parseDate, dayText.
  change "/"%string with (String "/"%char "").
  rewrite split_three by (apply twoDigits_plain || apply fourDigits_plain; by left).
  cbn [lookup list_lookup default]. unfold parse, isoDateOnly.
  change "-"%string with (String "-"%char "").
  rewrite split_three by (apply twoDigits_plain || apply fourDigits_plain; by right).
  cbv beta iota. unfold id. rewrite fourDigits_value, !twoDigits_value by lia.
  destruct Hm as [Hm1 Hm2]. destruct Hd as [Hd1 Hd2].
  apply Z.leb_le in Hm1, Hm2, Hd1, Hd2. by rewrite Hm1, Hm2, Hd1, Hd2.
Qed.

Lemma parseDate_calendar_day_witness :
  parseDate sampleHost "01/09/2025" = Valid (MakeDay 2025 8 1 * msPerDay).
Proof.
  apply (parseDate_calendar_day sampleHost 2025 9 1); by vm_compute.
Defined.

(** X12.  The loop of getFirstMondayBeforeOrOn.  From a valid date it
    ends within seven tests, at most six days back, at the same time of
    day, on the nearest local Monday on or before the date; from an
    invalid date it has not ended after any number of tests. *)
Theorem first_monday_walk (tz : Z) (fuel : nat) :
  (∀ t, ∃ k, 0 <= k <= 6
     ∧ walkBack tz (7 + fuel) (Valid t) = Done (Valid (t - k * msPerDay))
     ∧ getFirstMondayBeforeOrOn tz (Valid t) = Done (Valid (t - k * msPerDay))
     ∧ WeekDay (t - k * msPerDay + tz) = 1
     ∧ ∀ j, 0 <= j < k → WeekDay (t - j * msPerDay + tz) ≠ 1)
  ∧ walkBack tz fuel Invalid = Diverges.
Proof.
  split; [|apply DateFacts.walkBack_Invalid].
  intros t.
  destruct (DateFacts.mondayOnOrBefore_spec tz t) as (Hw & k & Hk & Heq & Hno).
  exists k. rewrite <- Heq. split; [done|].
  split; [apply DateFacts.walkBack_Valid; lia|].
  split; [apply DateFacts.getFirstMonday_Valid|]. done.
Qed.

End DateProps.

(** ** browser-autofiller.js: a second upload of the same file *)

Module PlainProps.
Import Js Csv Form BrowserAutofiller Samples FormFacts IndexFacts
  BrowserAutofillerFacts.

Lemma setInput_again cell v : setInput (setInput cell v) v = setInput cell v.
Proof. by destruct cell. Qed.

Lemma fill_again row c : fillFields (fillFields row c) c = fillFields row c.
Proof.
  unfold fillFields, withLook, writeInputs, withInputs. simpl.
  by rewrite !setInput_again.
Qed.

Lemma fill_keyParts row c : keyParts (fillFields row c) = keyParts row.
Proof. done. Qed.

Lemma findExact_head c l :
  findExact (trim <$> c !! "Funding Start") (c :: l) = Some c.
Proof. unfold findExact. simpl. by rewrite decide_True. Qed.

Lemma findExact_none l :
  Forall (λ c, is_Some (c !! "Funding Start")) l → findExact None l = None.
Proof.
  intros Hall. unfold findExact.
  destruct (list_find _ l) as [[i x]|] eqn:E; [|done].
  apply list_find_Some in E as (Hi & Hx & _).
  apply list_elem_of_lookup_2 in Hi.
  rewrite Forall_forall in Hall. destruct (Hall x Hi) as [f Hf].
  by rewrite Hf in Hx.
Qed.

Lemma findExact_app sv b e x :
  findExact sv b = Some x → findExact sv (b ++ e) = Some x.
Proof.
  unfold findExact. destruct (list_find _ b) as [[i y]|] eqn:E; [|done].
  simpl. intros [= ->].
  assert (list_find (λ c, trim <$> c !! "Funding Start" = sv) (b ++ e)
          = Some (i, x)) as -> by (apply list_find_app_Some; by left).
  done.
Qed.

Lemma findExact_Some sv l x :
  findExact sv l = Some x → x ∈ l ∧ trim <$> x !! "Funding Start" = sv.
Proof.
  unfold findExact. destruct (list_find _ l) as [[i y]|] eqn:E; [|done].
  simpl. intros [= ->]. apply list_find_Some in E as (Hi & Hx & _).
  split; [by eapply list_elem_of_lookup_2|done].
Qed.

(** The record picked for a row is picked again once its start date is
    in the row, also from a bucket that has grown at its end. *)
Lemma chosen_again cell b e c :
  Forall (λ c', is_Some (c' !! "Funding Start")) (b ++ e) →
  chosen (trim <$> cell) b = Some c →
  chosen (trim <$> setInput cell (c !! "Funding Start")) (b ++ e) = Some c.
Proof.
  intros Hall Hc.
  assert (c ∈ b) as Hin.
  { destruct (chosen_Some _ _ _ Hc) as (p & Hp & _).
    by eapply list_elem_of_lookup_2. }
  assert (is_Some (c !! "Funding Start")) as [f Hf].
  { rewrite Forall_forall in Hall. apply Hall, elem_of_app. by left. }
  assert (∀ l, chosen (Some (trim f)) (c :: l) = Some c) as Hhead.
  { intros [|c1 l]; [done|]. unfold chosen.
    replace (Some (trim f)) with (trim <$> c !! "Funding Start")
      by (by rewrite Hf).
    by rewrite findExact_head. }
  assert (∀ l, Forall (λ c', is_Some (c' !! "Funding Start")) (c :: l) →
               chosen None (c :: l) = Some c) as Hnone.
  { intros [|c1 l] Hl; [done|]. unfold chosen. by rewrite findExact_none. }
  destruct b as [|c0 [|c1 b']]; [done| |].
  - injection Hc as ->. destruct cell as [d|]; simpl.
    + rewrite Hf. apply Hhead.
    + by apply Hnone.
  - change ((c0 :: c1 :: b') ++ e) with (c0 :: c1 :: (b' ++ e)) in *.
    unfold chosen in Hc. destruct cell as [d|]; simpl in *.
    + rewrite Hf. simpl.
      destruct (findExact (Some (trim d)) (c0 :: c1 :: b')) as [x|] eqn:E;
        simpl in Hc; injection Hc as ->.
      * destruct (findExact_Some _ _ _ E) as [_ Hx].
        rewrite Hf in Hx. injection Hx as Hx. rewrite Hx.
        change (c0 :: c1 :: b' ++ e) with ((c0 :: c1 :: b') ++ e).
        by rewrite (findExact_app _ _ e _ E).
      * replace (Some (trim f)) with (trim <$> c !! "Funding Start")
          by (by rewrite Hf).
        by rewrite findExact_head.
    + rewrite findExact_none in Hc.
      * injection Hc as ->. by rewrite findExact_none.
      * change (c0 :: c1 :: b' ++ e) with ((c0 :: c1 :: b') ++ e) in Hall.
        by apply Forall_app in Hall as [? _].
Qed.

(** Walking the rows a traversal has left, with buckets that have grown
    only at their end and only where they held something, changes
    nothing. *)
Lemma plain_rerun rows : ∀ st1 st2,
  (∀ key, ∃ e,
     bucket (childrenByChickAndEnd st2) key
       = bucket (childrenByChickAndEnd st1) key ++ e
     ∧ (bucket (childrenByChickAndEnd st1) key = [] → e = [])) →
  (∀ key, Forall (λ c, is_Some (c !! "Funding Start"))
            (bucket (childrenByChickAndEnd st2) key)) →
  rowsOut (processNextRow st2 (rowsOut (processNextRow st1 rows)))
    = rowsOut (processNextRow st1 rows)
  ∧ trace (processNextRow st2 (rowsOut (processNextRow st1 rows)))
    = trace (processNextRow st1 rows).
Proof.
  induction rows as [|row rest IH]; intros st1 st2 Hgrow Hfs; [done|].
  plain_next_row st1 row rest; cbn [rowsOut trace andThen].
  - destruct (Hgrow (chick +:+ "|" +:+ claimUntil)) as (e & He & _).
    rewrite (plain_step_fill st2 (fillFields row c) _ chick claimUntil c).
    + cbn [rowsOut trace andThen]. rewrite fill_again.
      destruct (IH (matched st1) (matched st2) Hgrow Hfs) as [-> ->]. done.
    + done.
    + rewrite He.
      change (date_from (fillFields row c))
        with (setInput (date_from row) (c !! "Funding Start")).
      apply chosen_again; [|done]. rewrite <- He. apply Hfs.
  - destruct (Hgrow (chick +:+ "|" +:+ claimUntil)) as (e & He & Hnil).
    rewrite (plain_step_empty st2 row _ chick claimUntil Hk).
    + cbn [rowsOut trace andThen].
      destruct (IH st1 st2 Hgrow Hfs) as [-> ->]. done.
    + rewrite He, Hc, (Hnil Hc). done.
  - rewrite (plain_step_blank st2 row _ Hk). cbn [rowsOut trace andThen].
    destruct (IH st1 st2 Hgrow Hfs) as [-> ->]. done.
Qed.

Lemma plain_rowsOut_length rows : ∀ st,
  length (rowsOut (processNextRow st rows)) = length rows.
Proof.
  induction rows as [|row rest IH]; intros st; [done|].
  plain_next_row st row rest; simpl; by rewrite IH.
Qed.

Lemma parsed_records_have csv h :
  h ∈ headerNames (split LF (trim csv)) →
  Forall (λ r, is_Some (r !! h)) (parseCSV_trimmed csv).
Proof.
  intros Hh. unfold parseCSV_trimmed. apply Forall_fmap, Forall_forall.
  intros line _. simpl. unfold lineRecord.
  destruct (CsvFacts.buildRow_present _ (lineValues line) _ Hh) as (i & _ & ->).
  by eexists.
Qed.

(** X13.  browser-autofiller.js: uploading the same file a second time
    changes nothing in the form.  When every record, old and new, has a
    Funding Start field, the second traversal picks for every row the
    record the first one picked and writes the same values. *)
Theorem reupload_keeps_rows (st : State) (csv : string) (rows : list Row)
    (r1 : Run) :
  (∀ key, Forall (λ c, is_Some (c !! "Funding Start"))
            (bucket (childrenByChickAndEnd st) key)) →
  "Funding Start" ∈ headerNames (split LF (trim csv)) →
  processCSV st csv (Some rows) = Some r1 →
  ∃ r2, processCSV (final r1) csv (Some (rowsOut r1)) = Some r2
        ∧ rowsOut r2 = rowsOut r1 ∧ trace r2 = trace r1.
Proof.
  intros Hold Hhead. unfold processCSV, parseCSV.
  pose proof (parsed_records_have csv _ Hhead) as Hnew.
  set (data := parseCSV_trimmed csv) in *.
  destruct (indexRecords (childrenByChickAndEnd st) data) as [idx1|] eqn:E1;
    [|done].
  assert (Forall (λ r, is_Some (keyOf r)) data) as Hkeyed.
  { apply Forall_forall. intros r Hr.
    destruct (keyOf r) eqn:Ek; [by eexists|].
    assert (indexRecords (childrenByChickAndEnd st) data = None) as Hn
      by (apply indexRecords_throws, Exists_exists; eauto).
    congruence. }
  destruct (indexRecords_buckets (childrenByChickAndEnd st) data Hkeyed)
    as (idx1' & E1' & Hb1 & _).
  assert (idx1' = idx1) as -> by congruence.
  destruct (indexRecords_buckets idx1 data Hkeyed) as (idx2 & E2 & Hb2 & _).
  destruct rows as [|row rest]; [done|]. cbn [processTableRows].
  set (st1 := {| childrenByChickAndEnd := idx1; totalMatches := totalMatches st |}).
  intros Hr. apply (inj Some) in Hr. rewrite <- Hr. clear Hr r1.
  destruct (plain_run_index (row :: rest) st1) as (Hfinal & _ & _).
  rewrite Hfinal. cbn [childrenByChickAndEnd st1]. rewrite E2.
  pose proof (plain_rowsOut_length (row :: rest) st1) as Hlen.
  destruct (rowsOut (processNextRow st1 (row :: rest))) as [|row' rest'] eqn:Eout;
    [done|].
  cbn [processTableRows]. eexists. split; [done|]. rewrite <- Eout.
  apply plain_rerun.
  - intros key. cbn [childrenByChickAndEnd st1].
    exists (filter (λ r, keyOf r = Some key) data). split; [apply Hb2|].
    rewrite Hb1. by intros [_ ?]%app_eq_nil.
  - intros key. cbn [childrenByChickAndEnd]. rewrite Hb2, Hb1.
    rewrite !Forall_app. split; [split|].
    + apply Hold.
    + apply Forall_forall. intros x [_ Hx]%list_elem_of_filter.
      rewrite Forall_forall in Hnew. by apply Hnew.
    + apply Forall_forall. intros x [_ Hx]%list_elem_of_filter.
      rewrite Forall_forall in Hnew. by apply Hnew.
Qed.

Lemma reupload_keeps_rows_witness :
  let csv := "CHICK,Claim Until,Funding Start,Weekly Total,Hour rate" +:+ nl
             +:+ "A12,31/12/2025,01/09/2025,20,EUR 5.50" +:+ nl
             +:+ "A12,31/12/2025,01/10/2025,25,EUR 6.00" in
  ∃ r1 r2,
    processCSV emptyState csv (Some [sampleRow; sampleRowOctober]) = Some r1
    ∧ processCSV (final r1) csv (Some (rowsOut r1)) = Some r2
    ∧ rowsOut r2 = rowsOut r1 ∧ trace r2 = trace r1.
Proof.
  intros csv.
  destruct (processCSV emptyState csv (Some [sampleRow; sampleRowOctober]))
    as [r1|] eqn:E1; [|by vm_compute in E1].
  destruct (reupload_keeps_rows emptyState csv [sampleRow; sampleRowOctober]
              r1) as (r2 & H2 & H3 & H4).
  - intros key. unfold bucket. simpl. rewrite lookup_empty. constructor.
  - vm_compute. do 2 right. left.
  - exact E1.
  - exists r1, r2. split; [reflexivity|]. split; [exact H2|].
    split; [exact H3|exact H4].
Defined.

End PlainProps.

(** ** part_001: the index, the dialog, the count, the highlight *)

Module SheetProps.
Import Js Sheet Describe Samples SplitFacts.

Lemma indexByChick_snoc data r :
  indexByChick (data ++ [r])
  = <[default "undefined" (r !! "CHICK") := r]> (indexByChick data).
Proof. unfold indexByChick. by rewrite foldl_app. Qed.

Lemma includes_first_sep c s :
  includes (String c "") s = true →
  ∃ a b, without c a ∧ s = a +:+ String c b.
Proof.
  induction s as [|x s IH]; [done|]. cbn [includes startsWith].
  destruct (decide (c = x)) as [->|Hne].
  - intros _. by exists "", s.
  - rewrite bool_decide_eq_false_2 by done. cbn [andb orb]. intros H.
    destruct (IH H) as (a & b & Ha & ->). exists (String x a), b. split; [|done].
    cbn [all]. rewrite Ha. rewrite bool_decide_eq_false_2 by congruence. done.
Qed.

Lemma split_parts_without sep s : Forall (λ p, without sep p) (split sep s).
Proof.
  induction s as [|x s IH]; [by repeat constructor|]. cbn [split].
  destruct (decide (x = sep)) as [->|Hne]; [by constructor|].
  pose proof (split_nonempty sep s) as Hn.
  destruct (split sep s) as [|h t]; [done|].
  apply Forall_cons in IH as [Hh Ht]. constructor; [|done].
  cbn [all]. rewrite Hh. by rewrite bool_decide_eq_false_2.
Qed.

(** X14.  The index of part_001 keeps, for every identifier, the last
    record of the file that has it; a record without a CHICK field is
    kept under the word undefined. *)
Theorem index_last_wins (data : list (gmap string string)) (k : string) :
  indexByChick data !! k
  = last (filter (λ r, default "undefined" (r !! "CHICK") = k) data).
Proof.
  induction data as [|r data IH] using rev_ind; [done|].
  rewrite indexByChick_snoc, filter_app, filter_cons, filter_nil.
  destruct (decide (default "undefined" (r !! "CHICK") = k)) as [->|Hne].
  - by rewrite lookup_insert_eq, last_snoc.
  - by rewrite lookup_insert_ne, app_nil_r.
Qed.

(** X15.  A dialog offers at least two values: the Weekly Total cut at
    its slashes, so that no value holds a slash and the values joined by
    slashes give the field back. *)
Theorem dialog_offers (w : string) :
  needsChoice (Some w) = true →
  let values := split "/"%char w in
  (2 <= length values)%nat
  ∧ Forall (λ v, without "/"%char v) values
  ∧ join "/" values = w.
Proof.
  intros [_ Hinc]%andb_true_iff values. unfold values.
  split; [|split; [apply split_parts_without|apply join_split]].
  destruct (includes_first_sep _ _ Hinc) as (a & b & Ha & ->).
  rewrite split_app_sep by done.
  pose proof (split_nonempty "/"%char b). destruct (split "/"%char b); [done|].
  simpl. lia.
Qed.

Lemma dialog_offers_witness :
  (2 <= length (split "/"%char "20/25"))%nat
  ∧ Forall (λ v, without "/"%char v) (split "/"%char "20/25")
  ∧ join "/" (split "/"%char "20/25") = "20/25".
Proof. apply (dialog_offers "20/25"). reflexivity. Defined.

(** X16.  The two scripts of part_001 do the same as long as no dialog
    is answered with Skip This Row. *)
Theorem scripts_agree_without_skip (operator : nat → list string → Choice)
    (idx : gmap string (gmap string string)) (rows : list Row) (i n : nat) :
  Forall (λ e, ¬ skipped e)
    (trace (Part001a.processRowsSequentially operator idx rows i n)) →
  Part001b.processRowsSequentially operator rows i idx n
  = Part001a.processRowsSequentially operator idx rows i n.
Proof.
  revert i n. induction rows as [|row rest IH]; intros i n; [done|].
  cbn [Part001a.processRowsSequentially Part001b.processRowsSequentially].
  destruct (chickCell row) as [text|].
  - destruct (idx !! trim text) as [childData|].
    + cbv zeta. destruct (needsChoice _).
      * destruct (operator i _) as [k|].
        -- destruct (_ !! k); [|done].
           cbn [trace andThen]. intros [_ H]%Forall_cons. by rewrite IH.
        -- cbn [trace andThen]. intros [H _]%Forall_cons.
           destruct H. by eexists.
      * cbn [trace andThen]. intros [_ H]%Forall_cons. by rewrite IH.
    + cbn [trace andThen]. intros [_ H]%Forall_cons. by rewrite IH.
  - cbn [trace andThen]. intros [_ H]%Forall_cons. by rewrite IH.
Qed.

Lemma scripts_agree_without_skip_witness :
  Part001b.processRowsSequentially alwaysFirst
    [sheetRow "A12"; sheetRow "B7"] 0
    {[ "A12" := twoTotals; "B7" := oneTotal ]} 0
  = Part001a.processRowsSequentially alwaysFirst
      {[ "A12" := twoTotals; "B7" := oneTotal ]}
      [sheetRow "A12"; sheetRow "B7"] 0 0.
Proof.
  apply scripts_agree_without_skip.
  assert (trace (Part001a.processRowsSequentially alwaysFirst
                   {[ "A12" := twoTotals; "B7" := oneTotal ]}
                   [sheetRow "A12"; sheetRow "B7"] 0 0)
          = [Prompted ["20"; "25"] (Select 0); FilledDirect oneTotal]) as ->
    by by_evaluation.
  repeat (constructor; [by intros [? ?]|]). constructor.
Defined.

(** X17.  The count the first script of part_001 reports is the number
    of rows it filled, whatever the operator answers. *)
Theorem first_script_count (operator : nat → list string → Choice)
    (idx : gmap string (gmap string string)) (table : option (list Row))
    (r : Run) :
  Part001a.processTableRows operator idx table = Some r →
  reported r = length (filter (λ e, sheetFill e = true) (trace r)).
Proof.
  assert (∀ rows i n,
    reported (Part001a.processRowsSequentially operator idx rows i n)
    = n + length (filter (λ e, sheetFill e = true)
                    (trace (Part001a.processRowsSequentially operator idx rows i n))))
    as Hcount.
  { induction rows as [|row rest IH]; intros i n; [simpl; lia|].
    cbn [Part001a.processRowsSequentially].
    destruct (chickCell row) as [text|];
      [|cbn [reported trace andThen]; rewrite filter_cons; simpl; apply IH].
    destruct (idx !! trim text) as [childData|];
      [|cbn [reported trace andThen]; rewrite filter_cons; simpl; apply IH].
    cbv zeta. destruct (needsChoice _).
    - destruct (operator i _) as [k|].
      + destruct (_ !! k) as [v|] eqn:Ek.
        * cbn [reported trace andThen]. rewrite filter_cons. cbn [sheetFill].
          rewrite decide_True
            by (apply bool_decide_eq_true; rewrite Ek; by eexists).
          rewrite IH. simpl. lia.
        * cbn [reported trace suspend]. rewrite filter_cons, filter_nil.
          cbn [sheetFill].
          rewrite decide_False; [simpl; lia|].
          rewrite bool_decide_eq_true, Ek. by intros [? ?].
      + cbn [reported trace andThen]. rewrite filter_cons. simpl. apply IH.
    - cbn [reported trace andThen]. rewrite filter_cons. cbn [sheetFill].
      rewrite decide_True by done. rewrite IH. simpl. lia. }
  unfold Part001a.processTableRows. destruct table as [[|row rest]|]; try done.
  intros Hr. apply (inj Some) in Hr. rewrite <- Hr.
  exact (Hcount (row :: rest) 0 0).
Qed.

Lemma first_script_count_witness :
  reported (Part001a.processRowsSequentially alwaysSkip
              {[ "A12" := twoTotals; "B7" := oneTotal ]}
              [sheetRow "A12"; sheetRow "B7"] 0 0)
  = 1%nat.
Proof.
  rewrite (first_script_count alwaysSkip
             {[ "A12" := twoTotals; "B7" := oneTotal ]}
             (Some [sheetRow "A12"; sheetRow "B7"]) _ eq_refl).
  by_evaluation.
Defined.

End SheetProps.

Module UiProps.
Import Js Sheet Ui.

Lemma elem_of_classAdd c token classes :
  c ∈ classAdd token classes ↔ c = token ∨ c ∈ classes.
Proof.
  unfold classAdd. destruct (decide (token ∈ classes)) as [Hin|Hin].
  - split; [by right|]. by intros [->|].
  - rewrite elem_of_app, list_elem_of_singleton. tauto.
Qed.

Lemma token_listed h : "csv-filler-" +:+ statusName h ∈ highlightTokens.
Proof.
  unfold highlightTokens.
  destruct h; [left|right; left|right; right; left].
Qed.

Lemma token_inj h h' :
  "csv-filler-" +:+ statusName h' = "csv-filler-" +:+ statusName h → h' = h.
Proof. by destruct h, h'. Qed.

Lemma highlighted_token classes h h' :
  "csv-filler-" +:+ statusName h'
    ∈ classAdd ("csv-filler-" +:+ statusName h)
        (classRemove highlightTokens classes)
  ↔ h' = h.
Proof.
  rewrite elem_of_classAdd. unfold classRemove. rewrite list_elem_of_filter.
  split.
  - intros [H|[H _]]; [by apply token_inj|].
    destruct H. apply token_listed.
  - intros ->. by left.
Qed.

(** X18.  highlightRow leaves a row with exactly one of the three
    highlight classes, the one asked for, and with every other class it
    had before. *)
Theorem highlight_exclusive (classes : list string) (h : Highlight) :
  ∃ classes',
    highlightRow (Some classes) (statusName h) = Some classes'
    ∧ shownHighlight classes' = Some h
    ∧ (∀ h', "csv-filler-" +:+ statusName h' ∈ classes' ↔ h' = h)
    ∧ (∀ c, c ∉ highlightTokens → c ∈ classes' ↔ c ∈ classes).
Proof.
  eexists. split; [reflexivity|]. split; [|split].
  - unfold shownHighlight. cbn [list_find].
    destruct h.
    + rewrite decide_True by (by apply highlighted_token). done.
    + rewrite decide_False by (by rewrite highlighted_token).
      rewrite decide_True by (by apply highlighted_token). done.
    + rewrite decide_False by (by rewrite highlighted_token).
      rewrite decide_False by (by rewrite highlighted_token).
      rewrite decide_True by (by apply highlighted_token). done.
  - intros h'. apply highlighted_token.
  - intros c Hc. rewrite elem_of_classAdd. unfold classRemove.
    rewrite list_elem_of_filter. split.
    + intros [->|[_ H]]; [|done]. destruct Hc. apply token_listed.
    + intros H. right. done.
Qed.

End UiProps.
